(** * data_pipeline.py: the shorthand query translator, the interactive
      executor, the pandas cleaning and flattening steps, and the
      materialized view

    The development embeds [scripts/data_pipeline.py] shallowly.

    - Python strings are Rocq [string]s, sequences of 8-bit characters;
      only the ASCII range is given a letter case, a digit class or a
      white-space class.
    - A call of the translator has an [outcome]: the value it returns
      (a string or [None]) or the exception it raises.
    - A pandas frame is a [Table]: the column labels with a dtype tag
      each, and the rows in positional order.  The index labels are not
      represented; they play no part in the steps embedded here.
    - A pipeline step that can raise ([KeyError] for a column that is
      not there, and the like) returns an [option].
    - What pandas does to one timestamp text ([pd.to_datetime] with
      [errors='coerce']) and how it prints a timestamp are parameters of
      the cleaning step; so is the database behind the interactive loop.
    - [pd.merge] is embedded with the rows and the labels it produces; the
      checks it makes on the dtypes of the keys and on labels that collide
      after suffixing are left out.
    - The statement of [create_materialized_view] is embedded as the rows
      it selects from the tables; the [document] column holds the text
      that [to_tsvector] is applied to.
    - The state of the random generator is the list of the numbers it
      will draw; [pd.read_csv] and [os.path.exists] are parameters of the
      steps that read the data directory, and a frame written with
      [to_csv] is part of the result of the step that writes it. *)

From Stdlib Require Import String Ascii List Bool Arith ZArith Lia.
From Stdlib Require Import DecimalString FinFun.
Import ListNotations.
Open Scope list_scope.
Open Scope string_scope.

(* ===================================================================== *)
(** * Part I. Definitions                                                 *)
(* ===================================================================== *)

(** ** Python [str] primitives used by the script *)

Module Py.

(** The double-quote character of the script's SQL literals. *)
Definition dq : string := String (ascii_of_nat 34) EmptyString.

Definition colon : ascii := ascii_of_nat 58.

(** [str.isspace] on one character: TAB, LF, VT, FF, CR, FS, GS, RS, US
    and SPACE. *)
Definition isspace (c : ascii) : bool :=
  let n := nat_of_ascii c in
  ((9 <=? n)%nat && (n <=? 13)%nat) || ((28 <=? n)%nat && (n <=? 32)%nat).

(** [\d] of the [re] module, on the ASCII range. *)
Definition isdigit (c : ascii) : bool :=
  let n := nat_of_ascii c in (48 <=? n)%nat && (n <=? 57)%nat.

Definition lower_char (c : ascii) : ascii :=
  let n := nat_of_ascii c in
  if (65 <=? n)%nat && (n <=? 90)%nat then ascii_of_nat (n + 32) else c.

(** [s.lower()] *)
Fixpoint lower (s : string) : string :=
  match s with
  | EmptyString => EmptyString
  | String c s' => String (lower_char c) (lower s')
  end.

(** [s.startswith(p)] *)
Fixpoint startswith (s p : string) : bool :=
  match p, s with
  | EmptyString, _ => true
  | String _ _, EmptyString => false
  | String a p', String b s' => Ascii.eqb a b && startswith s' p'
  end.

(** [s[n:]] *)
Fixpoint slice_from (n : nat) (s : string) : string :=
  match n, s with
  | O, _ => s
  | S _, EmptyString => EmptyString
  | S n', String _ s' => slice_from n' s'
  end.

(** [len(s)] is [String.length s]. *)

(** [s.lstrip()] *)
Fixpoint lstrip (s : string) : string :=
  match s with
  | EmptyString => EmptyString
  | String c s' => if isspace c then lstrip s' else s
  end.

(** [s.rstrip()] *)
Fixpoint rstrip (s : string) : string :=
  match s with
  | EmptyString => EmptyString
  | String c s' =>
      match rstrip s' with
      | EmptyString => if isspace c then EmptyString else String c EmptyString
      | r => String c r
      end
  end.

(** [s.strip()] *)
Definition strip (s : string) : string := rstrip (lstrip s).

(** [s.split()]: the maximal runs of non-whitespace characters. *)
Fixpoint split (s : string) : list string :=
  match s with
  | EmptyString => []
  | String c s' =>
      if isspace c then split s'
      else
        match s' with
        | EmptyString => [String c EmptyString]
        | String c' _ =>
            if isspace c' then String c EmptyString :: split s'
            else
              match split s' with
              | w :: ws => String c w :: ws
              | [] => [String c EmptyString]
              end
        end
  end.

(** [c in s] for a one-character needle. *)
Fixpoint contains (c : ascii) (s : string) : bool :=
  match s with
  | EmptyString => false
  | String a s' => Ascii.eqb a c || contains c s'
  end.

(** [s.split(":", 1)]: one element when [s] has no colon, otherwise the
    text before the first colon and the text after it. *)
Fixpoint split_colon (s : string) : list string :=
  match s with
  | EmptyString => [EmptyString]
  | String c s' =>
      if Ascii.eqb c colon then [EmptyString; s']
      else
        match split_colon s' with
        | a :: rest => String c a :: rest
        | [] => [String c EmptyString]
        end
  end.

(** [\d+] anchored at both ends. *)
Fixpoint all_digits (s : string) : bool :=
  match s with
  | EmptyString => true
  | String c s' => isdigit c && all_digits s'
  end.

Definition digits1 (s : string) : bool :=
  match s with
  | EmptyString => false
  | _ => all_digits s
  end.

(** The leading run of digits of [s] and what follows it. *)
Fixpoint span_digits (s : string) : string * string :=
  match s with
  | EmptyString => (EmptyString, EmptyString)
  | String c s' =>
      if isdigit c then
        let (d, r) := span_digits s' in (String c d, r)
      else (EmptyString, s)
  end.

(** [\d+(?:\.\d+)?$] matched from the start of [s]. *)
Definition is_decimal (s : string) : bool :=
  let (d, r) := span_digits s in
  match d, r with
  | EmptyString, _ => false
  | _, EmptyString => true
  | _, String c f => Ascii.eqb c (ascii_of_nat 46) && digits1 f
  end.

(** [s[len(p):]] when [s.startswith(p)]. *)
Definition strip_prefix (p s : string) : option string :=
  if startswith s p then Some (slice_from (String.length p) s) else None.

(** [re.match(r'^(>=|>|<=|<)(\d+(?:\.\d+)?)$', s)]: the alternatives are
    tried in the order written, and one is kept only if the rest of the
    pattern matches after it; the result is [(group(1), group(2))]. *)
Fixpoint re_match_ops (ops : list string) (s : string)
  : option (string * string) :=
  match ops with
  | [] => None
  | op :: ops' =>
      match strip_prefix op s with
      | Some v => if is_decimal v then Some (op, v) else re_match_ops ops' s
      | None => re_match_ops ops' s
      end
  end.

Definition re_match_range (s : string) : option (string * string) :=
  re_match_ops [">="; ">"; "<="; "<"] s.

End Py.

(** ** Values and outcomes of a Python call *)

Inductive pyval : Type :=
| PyStr (s : string)
| PyNone.

Inductive outcome : Type :=
| Return (v : pyval)
| Raised (e : string).

(** ** The query translator, [parse_custom_query] *)

Module Translator.
Import Py.

Definition invalid_range : string := "SELECT 'Invalid range query' AS error;".
Definition invalid_filter : string :=
  "SELECT 'Invalid filter query format' AS error;".
Definition invalid_pop : string :=
  "SELECT 'Invalid population expression' AS error;".
Definition invalid_crm : string := "SELECT 'Invalid crm parameter' AS error;".

Definition select_where : string := "SELECT * FROM flattened_data WHERE ".

(** [user_query.split(":", 1)[1]], an [IndexError] when the list has one
    element. *)
Definition after_colon (user_query : string) : string + string :=
  match nth_error (split_colon user_query) 1 with
  | Some t => inl t
  | None => inr "IndexError"
  end.

(** The [range:] branch.  The two-token form is checked by the regular
    expression; when it does not match, control falls off the end of the
    function and Python returns [None].  The three-token form is
    formatted as it is. *)
Definition parse_range (user_query : string) : outcome :=
  let parts := split (strip (slice_from 6 user_query)) in
  match parts with
  | [field; tok] =>
      match re_match_range tok with
      | Some (op, val) =>
          Return (PyStr (select_where ++ field ++ " " ++ op ++ " " ++ val ++ ";"))
      | None => Return PyNone
      end
  | [field; op; val] =>
      Return (PyStr (select_where ++ field ++ " " ++ op ++ " " ++ val ++ ";"))
  | _ => Return (PyStr invalid_range)
  end.

(** The body of the [try] block of the [filter:] branch. *)
Definition parse_filter_body (user_query : string) : outcome :=
  let parts := split (strip (slice_from (String.length "filter:") user_query)) in
  match parts with
  | [email_term; tech_term; pop_expr] =>
      let build (op pop_val : string) :=
        Return (PyStr (select_where ++ dq ++ "emails" ++ dq ++ " ILIKE '%"
                       ++ email_term ++ "%' AND " ++ dq ++ "tech_names" ++ dq
                       ++ " ILIKE '%" ++ tech_term
                       ++ "%' AND pop_estimate_2022 " ++ op ++ " " ++ pop_val
                       ++ ";")) in
      if startswith pop_expr ">=" then build ">=" (slice_from 2 pop_expr)
      else if startswith pop_expr ">" then build ">" (slice_from 1 pop_expr)
      else if startswith pop_expr "<=" then build "<=" (slice_from 2 pop_expr)
      else if startswith pop_expr "<" then build "<" (slice_from 1 pop_expr)
      else Return (PyStr invalid_pop)
  | _ => Return (PyStr invalid_filter)
  end.

(** [try: ... except Exception as e: return f"SELECT 'Error parsing
    filter query: {e}' AS error;"] *)
Definition parse_filter (user_query : string) : outcome :=
  match parse_filter_body user_query with
  | Return v => Return v
  | Raised e =>
      Return (PyStr ("SELECT 'Error parsing filter query: " ++ e ++ "' AS error;"))
  end.

Definition parse_crm (user_query : string) : outcome :=
  match after_colon user_query with
  | inr e => Raised e
  | inl t =>
      let param := lower (strip t) in
      if String.eqb param "a" then
        Return (PyStr (select_where ++ "sfdc_id IS NOT NULL;"))
      else if String.eqb param "b" then
        Return (PyStr (select_where ++ "hubspot_id IS NOT NULL;"))
      else if String.eqb param "all" then
        Return (PyStr (select_where
                       ++ "sfdc_id IS NOT NULL OR hubspot_id IS NOT NULL;"))
      else Return (PyStr invalid_crm)
  end.

Definition parse_custom_query (user_query : string) : outcome :=
  let lower_query := lower user_query in
  if startswith lower_query "title:" then
    match after_colon user_query with
    | inr e => Raised e
    | inl t =>
        let term := strip t in
        Return (PyStr (select_where ++ "lower(title) ILIKE '%" ++ lower term
                       ++ "%';"))
    end
  else if startswith lower_query "emails:" then
    match after_colon user_query with
    | inr e => Raised e
    | inl t =>
        let term := lower (strip t) in
        Return (PyStr (select_where ++ dq ++ "emails" ++ dq ++ " ILIKE '%"
                       ++ term ++ "%';"))
    end
  else if startswith lower_query "range:" then parse_range user_query
  else if startswith lower_query "filter:" then parse_filter user_query
  else if startswith lower_query "crm:" then parse_crm user_query
  else if contains colon user_query then
    match split_colon user_query with
    | [field; term] =>
        Return (PyStr (select_where ++ strip field ++ " ILIKE '%"
                       ++ lower (strip term) ++ "%';"))
    | _ => Raised "ValueError"
    end
  else
    Return (PyStr (select_where ++ dq ++ "document" ++ dq
                   ++ " @@ plainto_tsquery('english', '" ++ user_query
                   ++ "');")).

End Translator.

(** ** The statements that the translator is expected to build *)

Module Statements.
Import Py Translator.

Definition comparison_ops : list string := [">="; ">"; "<="; "<"].

(** [s.endswith(p)] *)
Definition endswith (s p : string) : bool :=
  (String.length p <=? String.length s)%nat
  && String.eqb (slice_from (String.length s - String.length p) s) p.

(** An error result of the translator: a statement that only selects a
    message under the column name [error]. *)
Definition structured_error (o : outcome) : bool :=
  match o with
  | Return (PyStr s) => startswith s "SELECT '" && endswith s "' AS error;"
  | _ => false
  end.

(** Numeric comparison of a field against a value. *)
Definition compare_statement (field op val : string) : string :=
  "SELECT * FROM flattened_data WHERE " ++ field ++ " " ++ op ++ " " ++ val ++ ";".

(** [emails] contains [e] AND [tech_names] contains [t] AND
    [pop_estimate_2022 op val]. *)
Definition filter_statement (e t op val : string) : string :=
  "SELECT * FROM flattened_data WHERE " ++ dq ++ "emails" ++ dq ++ " ILIKE '%"
  ++ e ++ "%' AND " ++ dq ++ "tech_names" ++ dq ++ " ILIKE '%" ++ t
  ++ "%' AND pop_estimate_2022 " ++ op ++ " " ++ val ++ ";".

(** Full-text match of [document] against the whole input. *)
Definition full_text_statement (q : string) : string :=
  "SELECT * FROM flattened_data WHERE " ++ dq ++ "document" ++ dq
  ++ " @@ plainto_tsquery('english', '" ++ q ++ "');".

End Statements.

(** ** pandas frames *)

Module Frame.

(** A scalar of a frame: text, an integer-valued number, a timestamp (the
    [int64] count of nanoseconds of [datetime64[ns]]), or one of the three
    missing-value markers [NaN], [NaT] and [None]. *)
Inductive scalar : Type :=
| SStr (s : string)
| SNum (z : Z)
| STime (t : Z)
| SNaN
| SNaT
| SNone.

(** A cell holds a scalar or a Python list of scalars (the aggregated
    [tech_names]). *)
Inductive cell : Type :=
| Scalar (v : scalar)
| PyList (l : list scalar).

Inductive dtype : Type := object | int64 | float64 | datetime64.

Definition dtype_eqb (a b : dtype) : bool :=
  match a, b with
  | object, object | int64, int64 | float64, float64
  | datetime64, datetime64 => true
  | _, _ => false
  end.

Definition row : Type := list cell.

(** A [DataFrame]: the column labels with their dtypes, and the rows in
    positional order.  The row index labels are not represented. *)
Record Table : Type := mkTable {
  columns : list (string * dtype);
  rows : list row
}.

(** [pd.DataFrame()] *)
Definition empty_frame : Table := mkTable [] [].

(** [df.empty]: no rows or no columns. *)
Definition empty (t : Table) : bool :=
  (length (rows t) =? 0)%nat || (length (columns t) =? 0)%nat.

(** [df.shape[0]] *)
Definition nrows (t : Table) : nat := length (rows t).

Definition col_names (t : Table) : list string := map fst (columns t).

(** [pd.isna] *)
Definition is_na (v : scalar) : bool :=
  match v with
  | SNaN | SNaT | SNone => true
  | _ => false
  end.

Definition scalar_eqb (a b : scalar) : bool :=
  match a, b with
  | SStr x, SStr y => String.eqb x y
  | SNum x, SNum y => Z.eqb x y
  | STime x, STime y => Z.eqb x y
  | SNaN, SNaN | SNaT, SNaT | SNone, SNone => true
  | _, _ => false
  end.

(** Equality of values as [drop_duplicates], [groupby] and [merge] see
    it: missing values are all alike. *)
Definition scalar_same (a b : scalar) : bool :=
  (is_na a && is_na b) || scalar_eqb a b.

Fixpoint scalars_same (l1 l2 : list scalar) : bool :=
  match l1, l2 with
  | [], [] => true
  | a :: l1', b :: l2' => scalar_same a b && scalars_same l1' l2'
  | _, _ => false
  end.

Definition cell_same (a b : cell) : bool :=
  match a, b with
  | Scalar x, Scalar y => scalar_same x y
  | PyList x, PyList y => scalars_same x y
  | _, _ => false
  end.

Fixpoint row_same (r1 r2 : row) : bool :=
  match r1, r2 with
  | [], [] => true
  | a :: r1', b :: r2' => cell_same a b && row_same r1' r2'
  | _, _ => false
  end.

(** Join and group keys are scalar cells. *)
Definition key_match (a b : cell) : bool :=
  match a, b with
  | Scalar x, Scalar y => scalar_same x y
  | _, _ => false
  end.

Definition na_cell : cell := Scalar SNaN.

(** The cell of a row at a column position. *)
Definition get (i : nat) (r : row) : cell := nth i r na_cell.

(** The positions of the columns labelled [name], from position [i]. *)
Fixpoint positions (name : string) (cols : list (string * dtype)) (i : nat)
  : list nat :=
  match cols with
  | [] => []
  | (n, _) :: cols' =>
      if String.eqb n name then i :: positions name cols' (S i)
      else positions name cols' (S i)
  end.

(** The position of the one column labelled [name].  [df[name]] raises
    [KeyError] when there is none; with several it is a frame, on which
    the Series operations of the script raise. *)
Definition index_of (name : string) (cols : list (string * dtype)) : option nat :=
  match positions name cols 0 with
  | [i] => Some i
  | _ => None
  end.

Definition col_index (name : string) (t : Table) : option nat :=
  index_of name (columns t).

Definition has_column (name : string) (t : Table) : bool :=
  existsb (String.eqb name) (col_names t).

(** Apply [f] to the cell at position [i] of a row. *)
Fixpoint map_nth (i : nat) (f : cell -> cell) (r : row) : row :=
  match r, i with
  | [], _ => []
  | c :: r', O => f c :: r'
  | c :: r', S i' => c :: map_nth i' f r'
  end.

Fixpoint set_dtype (i : nat) (d : dtype) (cols : list (string * dtype))
  : list (string * dtype) :=
  match cols, i with
  | [], _ => []
  | (n, _) :: cols', O => (n, d) :: cols'
  | c :: cols', S i' => c :: set_dtype i' d cols'
  end.

(** [df[name] = f(df[name])] for the column at position [i]. *)
Definition map_col (i : nat) (f : cell -> cell) (t : Table) : Table :=
  mkTable (columns t) (map (map_nth i f) (rows t)).

(** [df.columns = [col.lower() for col in df.columns]] *)
Definition lower_columns (t : Table) : Table :=
  mkTable (map (fun c => (Py.lower (fst c), snd c)) (columns t)) (rows t).

(** [df.select_dtypes(include='object').columns] *)
Definition object_columns (t : Table) : list string :=
  map fst (filter (fun c => dtype_eqb (snd c) object) (columns t)).

(** One element of [series.str.strip()]: text is stripped, anything else
    becomes [NaN]. *)
Definition str_strip (c : cell) : cell :=
  match c with
  | Scalar (SStr s) => Scalar (SStr (Py.strip s))
  | _ => Scalar SNaN
  end.

(** [df.drop_duplicates()]: of the rows that are alike, the first stays. *)
Fixpoint dedup (rs : list row) : list row :=
  match rs with
  | [] => []
  | r :: rs' => r :: filter (fun r' => negb (row_same r r')) (dedup rs')
  end.

Definition drop_duplicates (t : Table) : Table :=
  mkTable (columns t) (dedup (rows t)).

(** [range(1, n+1)] from [k] on. *)
Fixpoint number_rows (k : Z) (rs : list row) : list row :=
  match rs with
  | [] => []
  | r :: rs' => (Scalar (SNum k) :: r) :: number_rows (k + 1) rs'
  end.

(** [df.insert(0, 'id', range(1, len(df)+1))] *)
Definition insert_id (t : Table) : Table :=
  mkTable (("id", int64) :: columns t) (number_rows 1 (rows t)).

End Frame.

(** ** Step 2 of the pipeline: [clean_data] *)

Module Clean.
Import Frame.

(** The five frames that [load_csv_data] returns under the keys
    ['contacts'], ['entities'], ['techstacks'], ['customerA'] and
    ['customerB']. *)
Record Data : Type := mkData {
  contacts : Table;
  entities : Table;
  techstacks : Table;
  customerA : Table;
  customerB : Table
}.

Definition lparen : ascii := ascii_of_nat 40.
Definition rparen : ascii := ascii_of_nat 41.
Definition newline : ascii := ascii_of_nat 10.

(** Where a match of [.*?\)] ends: after the first [)] that is reached
    without crossing a line break. *)
Fixpoint find_close (s : string) : option string :=
  match s with
  | EmptyString => None
  | String c s' =>
      if Ascii.eqb c rparen then Some s'
      else if Ascii.eqb c newline then None
      else find_close s'
  end.

Fixpoint re_sub_parens_fuel (fuel : nat) (s : string) : string :=
  match fuel with
  | O => s
  | S fuel' =>
      match s with
      | EmptyString => EmptyString
      | String c s' =>
          if Ascii.eqb c lparen then
            match find_close s' with
            | Some rest => re_sub_parens_fuel fuel' rest
            | None => String c (re_sub_parens_fuel fuel' s')
            end
          else String c (re_sub_parens_fuel fuel' s')
      end
  end.

(** [re.sub(r'\(.*?\)', '', s)], which is what
    [.str.replace(r'\(.*?\)', '', regex=True)] does to one element: every
    leftmost shortest parenthesised group is removed. *)
Definition re_sub_parens (s : string) : string :=
  re_sub_parens_fuel (String.length s) s.

(** Whether the pattern [\(.*?\)] matches somewhere in [s]. *)
Fixpoint has_group (s : string) : bool :=
  match s with
  | EmptyString => false
  | String c s' =>
      (Ascii.eqb c lparen
       && match find_close s' with Some _ => true | None => false end)
      || has_group s'
  end.

Definition str_of_Z (z : Z) : string := NilZero.string_of_int (Z.to_int z).

Fixpoint strip_cols (names : list string) (t : Table) : option Table :=
  match names with
  | [] => Some t
  | n :: names' =>
      match col_index n t with
      | Some i => strip_cols names' (map_col i str_strip t)
      | None => None
      end
  end.

(** [for col in df.select_dtypes(include='object').columns:
       df[col] = df[col].str.strip()], with the columns for which [skip]
    holds left alone. *)
Definition strip_object_columns (skip : string -> bool) (t : Table)
  : option Table :=
  strip_cols (filter (fun n => negb (skip n)) (object_columns t)) t.

(** The cleaning of [entities] and of [techstacks], and of a customer
    mapping: nothing is done to an empty frame. *)
Definition clean_plain (t : Table) : option Table :=
  if empty t then Some t
  else
    match strip_object_columns (fun _ => false) t with
    | Some t' => Some (drop_duplicates t')
    | None => None
    end.

(** The first loop of [clean_data]. *)
Definition lower_if_nonempty (t : Table) : Table :=
  if empty t then t else lower_columns t.

Section Datetime.

(** [pd.to_datetime] on one text ([None]: the text does not parse),
    [str] of a [Timestamp], and [str] of a list. *)
Variable to_datetime : string -> option Z.
Variable str_of_time : Z -> string.
Variable str_of_list : list scalar -> string.

(** One element of [series.astype(str)]. *)
Definition astype_str (d : dtype) (c : cell) : string :=
  match c with
  | Scalar (SStr s) => s
  | Scalar (SNum z) =>
      match d with
      | float64 => str_of_Z z ++ ".0"
      | _ => str_of_Z z
      end
  | Scalar (STime t) => str_of_time t
  | Scalar SNaN => "nan"
  | Scalar SNaT => "NaT"
  | Scalar SNone => "None"
  | PyList l => str_of_list l
  end.

(** The text that reaches the parser:
    [.astype(str).str.replace(r'\(.*?\)', '', regex=True).str.strip()] *)
Definition created_at_text (d : dtype) (c : cell) : string :=
  Py.strip (re_sub_parens (astype_str d c)).

(** [pd.to_datetime(..., errors='coerce')] on one element. *)
Definition coerce_datetime (s : string) : cell :=
  match to_datetime s with
  | Some t => Scalar (STime t)
  | None => Scalar SNaT
  end.

Definition parse_created_at (d : dtype) (c : cell) : cell :=
  coerce_datetime (created_at_text d c).

(** A cell that [pd.to_datetime] has produced: a timestamp that is the
    parse of some text, or [NaT]. *)
Definition is_parsed (c : cell) : Prop :=
  c = Scalar SNaT \/ exists s t, to_datetime s = Some t /\ c = Scalar (STime t).

(** The two assignments to [contacts['created_at']]. *)
Definition convert_created_at (t : Table) : option Table :=
  match col_index "created_at" t with
  | Some i =>
      let d := snd (nth i (columns t) (EmptyString, object)) in
      Some (mkTable (set_dtype i datetime64 (columns t))
                    (map (map_nth i (parse_created_at d)) (rows t)))
  | None => None
  end.

Definition add_id_if_missing (t : Table) : Table :=
  if existsb (String.eqb "id") (map Py.lower (col_names t)) then t
  else insert_id t.

Definition clean_contacts (t : Table) : option Table :=
  if empty t then Some t
  else
    match convert_created_at t with
    | None => None
    | Some t1 =>
        match strip_object_columns (String.eqb "created_at") t1 with
        | None => None
        | Some t2 => Some (drop_duplicates (add_id_if_missing t2))
        end
    end.

Definition clean_data (data : Data) : option Data :=
  let data :=
    mkData (lower_if_nonempty (contacts data))
           (lower_if_nonempty (entities data))
           (lower_if_nonempty (techstacks data))
           (lower_if_nonempty (customerA data))
           (lower_if_nonempty (customerB data)) in
  match clean_contacts (contacts data) with
  | None => None
  | Some c =>
      match clean_plain (entities data) with
      | None => None
      | Some e =>
          match clean_plain (techstacks data) with
          | None => None
          | Some t =>
              match clean_plain (customerA data) with
              | None => None
              | Some ca =>
                  match clean_plain (customerB data) with
                  | None => None
                  | Some cb => Some (mkData c e t ca cb)
                  end
              end
          end
      end
  end.

End Datetime.

End Clean.

(** ** Step 4 of the pipeline: [flatten_data] *)

Module Flatten.
Import Frame Clean.

Fixpoint remove_nth {A : Type} (i : nat) (l : list A) : list A :=
  match l, i with
  | [], _ => []
  | _ :: l', O => l'
  | x :: l', S i' => x :: remove_nth i' l'
  end.

(** The right rows whose key is the key of the left row [lr]. *)
Definition matches (li ri : nat) (right : list row) (lr : row) : list row :=
  filter (fun rr => key_match (get li lr) (get ri rr)) right.

(** The value that fills a column of the right frame in a left row
    without a match. *)
Definition fill_for (d : dtype) : cell :=
  match d with
  | datetime64 => Scalar SNaT
  | _ => Scalar SNaN
  end.

(** The rows that a left join makes of one left row: one per matching
    right row, or the left row padded with missing values. *)
Definition join_row (li ri : nat) (right : Table) (lr : row) : list row :=
  match matches li ri (rows right) lr with
  | [] => [lr ++ map (fun c => fill_for (snd c)) (remove_nth ri (columns right))]%list
  | ms => map (fun rr => (lr ++ remove_nth ri rr)%list) ms
  end.

(** A label that both frames carry, the key apart, takes a suffix. *)
Definition overlaps (key : string) (left right : Table) (n : string) : bool :=
  negb (String.eqb n key)
  && existsb (String.eqb n) (col_names left)
  && existsb (String.eqb n) (col_names right).

Definition upcast (missing : bool) (d : dtype) : dtype :=
  match d with
  | int64 => if missing then float64 else int64
  | _ => d
  end.

Definition merge_columns (key : string) (suffixes : string * string)
    (left right : Table) (li ri : nat) : list (string * dtype) :=
  let missing :=
    existsb (fun lr => match matches li ri (rows right) lr with
                       | [] => true
                       | _ => false
                       end) (rows left) in
  let rename (sfx : string) (n : string) :=
    if overlaps key left right n then n ++ sfx else n in
  (map (fun c => (rename (fst suffixes) (fst c), snd c)) (columns left)
   ++ map (fun c => (rename (snd suffixes) (fst c), upcast missing (snd c)))
          (remove_nth ri (columns right)))%list.

(** [pd.merge(left, right, on=key, how='left', suffixes=suffixes)]: the
    rows follow the order of the left frame, and within one left row the
    order of the right frame.  A key label that is absent from a frame,
    or not unique in it, raises. *)
Definition merge_left (left right : Table) (key : string)
    (suffixes : string * string) : option Table :=
  match col_index key left, col_index key right with
  | Some li, Some ri =>
      Some (mkTable (merge_columns key suffixes left right li ri)
                    (flat_map (join_row li ri right) (rows left)))
  | _, _ => None
  end.

(** The order in which [groupby] sorts its keys: numbers, timestamps and
    texts each in their own order, and in that order across kinds. *)
Definition scalar_rank (v : scalar) : nat :=
  match v with
  | SNum _ => 0
  | STime _ => 1
  | SStr _ => 2
  | _ => 3
  end.

Definition scalar_leb (a b : scalar) : bool :=
  match a, b with
  | SNum x, SNum y => (x <=? y)%Z
  | STime x, STime y => (x <=? y)%Z
  | SStr x, SStr y => String.leb x y
  | _, _ => (scalar_rank a <=? scalar_rank b)%nat
  end.

Fixpoint insert_sorted (k : scalar) (ks : list scalar) : list scalar :=
  match ks with
  | [] => [k]
  | k' :: ks' =>
      if scalar_leb k k' then k :: ks else k' :: insert_sorted k ks'
  end.

Fixpoint sort_keys (ks : list scalar) : list scalar :=
  match ks with
  | [] => []
  | k :: ks' => insert_sorted k (sort_keys ks')
  end.

(** The distinct keys, each at its first occurrence. *)
Fixpoint distinct_keys (ks : list scalar) : list scalar :=
  match ks with
  | [] => []
  | k :: ks' => k :: filter (fun k' => negb (scalar_same k k')) (distinct_keys ks')
  end.

(** The scalar in a cell of the key or of the [name] column. *)
Definition scalar_of (c : cell) : scalar :=
  match c with
  | Scalar v => v
  | PyList _ => SNaN
  end.

(** The group keys of [groupby(key)]: rows with a missing key belong to
    no group, and the groups come sorted by key. *)
Definition group_keys (pi : nat) (rs : list row) : list scalar :=
  sort_keys
    (distinct_keys
       (filter (fun k => negb (is_na k)) (map (fun r => scalar_of (get pi r)) rs))).

(** [list(x)] for the [name] values [x] of the group of key [k], in the
    order of the rows. *)
Definition names_of (pi ni : nat) (rs : list row) (k : scalar) : list scalar :=
  map (fun r => scalar_of (get ni r))
      (filter (fun r => key_match (Scalar k) (get pi r)) rs).

(** [techstacks.groupby('place_id').agg({'name': lambda x: list(x)})
      .reset_index().rename(columns={'name': 'tech_names'})] *)
Definition group_tech_names (t : Table) : option Table :=
  match col_index "place_id" t, col_index "name" t with
  | Some pi, Some ni =>
      let d := snd (nth pi (columns t) (EmptyString, object)) in
      Some (mkTable [("place_id", d); ("tech_names", object)]
                    (map (fun k => [Scalar k; PyList (names_of pi ni (rows t) k)])
                         (group_keys pi (rows t))))
  | _, _ => None
  end.

Fixpoint set_where {A : Type} (hit : list bool) (v : A) (l : list A) : list A :=
  match hit, l with
  | true :: hit', _ :: l' => v :: set_where hit' v l'
  | false :: hit', x :: l' => x :: set_where hit' v l'
  | _, _ => l
  end.

(** [df[name] = None]: every column labelled [name] is overwritten; when
    there is none, a column is appended. *)
Definition assign_none (name : string) (t : Table) : Table :=
  if has_column name t then
    let hit := map (fun c => String.eqb (fst c) name) (columns t) in
    mkTable (map (fun c => if String.eqb (fst c) name then (fst c, object) else c)
                 (columns t))
            (map (set_where hit (Scalar SNone)) (rows t))
  else
    mkTable (columns t ++ [(name, object)])%list
            (map (fun r => (r ++ [Scalar SNone])%list) (rows t)).

Definition default_suffixes : string * string := ("_x", "_y").

Definition merge_if_nonempty (merged right : Table) : option Table :=
  if negb (empty right) then merge_left merged right "place_id" default_suffixes
  else Some merged.

Definition add_tech_names (merged techstacks : Table) : option Table :=
  if negb (empty techstacks) then
    match group_tech_names techstacks with
    | Some grouped => merge_left merged grouped "place_id" default_suffixes
    | None => None
    end
  else Some (assign_none "tech_names" merged).

Definition flatten_data (cleaned_data : Data) : option Table :=
  let contacts := contacts cleaned_data in
  let entities := entities cleaned_data in
  let techstacks := techstacks cleaned_data in
  let customera := customerA cleaned_data in
  let customerb := customerB cleaned_data in
  if empty contacts || empty entities then Some empty_frame
  else
    match merge_left contacts entities "place_id" ("_contact", "_entity") with
    | None => None
    | Some merged =>
        match add_tech_names merged techstacks with
        | None => None
        | Some merged =>
            match merge_if_nonempty merged customera with
            | None => None
            | Some merged => merge_if_nonempty merged customerb
            end
        end
    end.

End Flatten.

(** ** Step 3 of the pipeline: the query of [create_materialized_view] *)

Module View.
Import Frame Clean.

(** The tables are the cleaned frames as [load_data_to_db] writes them
    with [to_sql]: an object column is a text column, and every
    missing-value marker is NULL. *)

(** [a = b] in a join condition: true only of two values that are not
    NULL. *)
Definition sql_eq (a b : cell) : bool :=
  match a, b with
  | Scalar x, Scalar y => negb (is_na x) && negb (is_na y) && scalar_eqb x y
  | _, _ => false
  end.

(** The value of a cell in the table: the missing-value markers are one
    NULL, which [GROUP BY] takes as one value. *)
Definition sql_value (c : cell) : cell :=
  match c with
  | Scalar v => if is_na v then Scalar SNone else c
  | PyList _ => c
  end.

(** [lower(x)] of a text column: NULL stays NULL. *)
Definition sql_lower (c : cell) : cell :=
  match c with
  | Scalar (SStr s) => Scalar (SStr (Py.lower s))
  | _ => Scalar SNone
  end.

(** [coalesce(x, '')] of a text value. *)
Definition coalesce_text (c : cell) : string :=
  match c with
  | Scalar (SStr s) => s
  | _ => EmptyString
  end.

Definition dtype_at (i : nat) (t : Table) : dtype :=
  snd (nth i (columns t) (EmptyString, object)).

(** A column that the statement names; the statement fails when the table
    does not have it. *)
Definition column (name : string) (t : Table) : option nat := col_index name t.

(** A column to which the statement applies [lower]: it must be text. *)
Definition text_column (name : string) (t : Table) : option nat :=
  match col_index name t with
  | Some i => if dtype_eqb (dtype_at i t) object then Some i else None
  | None => None
  end.

(** The column types between which [=] is defined: text with text,
    numbers with numbers, timestamps with timestamps. *)
Definition comparable (a b : dtype) : bool :=
  match a, b with
  | object, object | datetime64, datetime64 => true
  | int64, int64 | int64, float64 | float64, int64 | float64, float64 => true
  | _, _ => false
  end.

(** A join key of the right table, to be compared with [e.place_id]. *)
Definition key_column (e_type : dtype) (t : Table) : option nat :=
  match col_index "place_id" t with
  | Some i => if comparable e_type (dtype_at i t) then Some i else None
  | None => None
  end.

(** The positions of the columns of [contacts], [entities], [customera]
    and [customerb] that the statement names. *)
Record Base : Type := mkBase {
  c_id : nat; c_emails : nat; c_title : nat; c_place : nat;
  e_place : nat; e_name : nat; e_pop : nat; e_lat : nat; e_long : nat;
  a_place : nat; a_sfdc : nat;
  b_place : nat; b_hubspot : nat
}.

(** The positions of [t.place_id] and [t.name]. *)
Record Tags : Type := mkTags { t_place : nat; t_name : nat }.

Definition bind {A B : Type} (x : option A) (f : A -> option B) : option B :=
  match x with
  | Some a => f a
  | None => None
  end.

Definition base_layout (db : Data) : option Base :=
  bind (column "id" (contacts db)) (fun cid =>
  bind (text_column "emails" (contacts db)) (fun cem =>
  bind (text_column "title" (contacts db)) (fun cti =>
  bind (column "place_id" (entities db)) (fun epl =>
  bind (key_column (dtype_at epl (entities db)) (contacts db)) (fun cpl =>
  bind (text_column "display_name" (entities db)) (fun ena =>
  bind (column "pop_estimate_2022" (entities db)) (fun epo =>
  bind (column "lat" (entities db)) (fun ela =>
  bind (column "long" (entities db)) (fun elo =>
  bind (key_column (dtype_at epl (entities db)) (customerA db)) (fun apl =>
  bind (column "sfdc_id" (customerA db)) (fun asf =>
  bind (key_column (dtype_at epl (entities db)) (customerB db)) (fun bpl =>
  bind (column "hubspot_id" (customerB db)) (fun bhu =>
  Some (mkBase cid cem cti cpl epl ena epo ela elo apl asf bpl bhu)))))))))))))).

Definition tags_layout (B : Base) (db : Data) : option Tags :=
  bind (key_column (dtype_at (e_place B) (entities db)) (techstacks db)) (fun tpl =>
  bind (text_column "name" (techstacks db)) (fun tna =>
  Some (mkTags tpl tna))).

(** One row of the [FROM] clause: a contact, its entity, and a row or
    NULLs from each of the three tables joined with [LEFT JOIN]. *)
Record Joined : Type := mkJoined {
  jc : row;
  je : row;
  jt : option row;
  ja : option row;
  jb : option row
}.

(** A column of a left-joined table. *)
Definition field (i : nat) (r : option row) : cell :=
  match r with
  | Some r => get i r
  | None => Scalar SNone
  end.

(** [LEFT JOIN right ON key = right.place_id] for one left row: the
    matching right rows, or one row of NULLs. *)
Definition left_matches (key : cell) (ri : nat) (right : list row)
  : list (option row) :=
  match filter (fun r => sql_eq key (get ri r)) right with
  | [] => [None]
  | ms => map Some ms
  end.

(** [contacts c JOIN entities e ON c.place_id = e.place_id
      LEFT JOIN techstacks t ON e.place_id = t.place_id
      LEFT JOIN customera ca ON e.place_id = ca.place_id
      LEFT JOIN customerb cb ON e.place_id = cb.place_id] *)
Definition from_clause (B : Base) (T : Tags) (db : Data) : list Joined :=
  flat_map (fun c =>
    flat_map (fun e =>
      if sql_eq (get (c_place B) c) (get (e_place B) e) then
        flat_map (fun t =>
          flat_map (fun a =>
            map (fun b => mkJoined c e t a b)
                (left_matches (get (e_place B) e) (b_place B) (rows (customerB db))))
            (left_matches (get (e_place B) e) (a_place B) (rows (customerA db))))
          (left_matches (get (e_place B) e) (t_place T) (rows (techstacks db)))
      else [])
      (rows (entities db)))
    (rows (contacts db)).

(** The nine expressions of the [GROUP BY] clause. *)
Definition group_key (B : Base) (j : Joined) : list cell :=
  map sql_value
      [get (c_id B) (jc j); get (c_emails B) (jc j); get (c_title B) (jc j);
       get (e_name B) (je j); get (e_pop B) (je j); get (e_lat B) (je j);
       get (e_long B) (je j); field (a_sfdc B) (ja j); field (b_hubspot B) (jb j)].

Definition scalar_eq_dec (a b : scalar) : {a = b} + {a <> b}.
Proof. decide equality; (apply string_dec || apply Z.eq_dec). Defined.

Definition cell_eq_dec (a b : cell) : {a = b} + {a <> b}.
Proof. decide equality; (apply scalar_eq_dec || apply (list_eq_dec scalar_eq_dec)). Defined.

Definition key_eq_dec : forall a b : list cell, {a = b} + {a <> b} :=
  list_eq_dec cell_eq_dec.

(** The groups, each by its key (SQL leaves their order open). *)
Definition groups (B : Base) (js : list Joined) : list (list cell) :=
  nodup key_eq_dec (map (group_key B) js).

Definition members (B : Base) (js : list Joined) (k : list cell) : list Joined :=
  filter (fun j => if key_eq_dec (group_key B j) k then true else false) js.

(** The inputs of [string_agg(lower(t.name), ' ')] over a group: the
    values that are not NULL. *)
Definition agg_names (T : Tags) (js : list Joined) : list string :=
  flat_map (fun j => match sql_lower (field (t_name T) (jt j)) with
                     | Scalar (SStr s) => [s]
                     | _ => []
                     end) js.

(** [coalesce(string_agg(lower(t.name), ' '), '')] *)
Definition tech_names_text (names : list string) : string :=
  String.concat " " names.

(** The [SELECT] list for the group of key [k].  The last column is the
    text that [to_tsvector('english', ...)] is applied to. *)
Definition select_row (k : list cell) (names : list string) : row :=
  let emails := sql_lower (get 1 k) in
  let title := sql_lower (get 2 k) in
  let tech := tech_names_text names in
  [get 0 k; emails; title; sql_lower (get 3 k); get 4 k; get 5 k; get 6 k;
   Scalar (SStr tech); get 7 k; get 8 k;
   Scalar (SStr (coalesce_text emails ++ " " ++ coalesce_text title ++ " " ++ tech))].

Definition view_columns (B : Base) (db : Data) : list (string * dtype) :=
  [("contact_id", dtype_at (c_id B) (contacts db));
   ("emails", object); ("title", object); ("display_name", object);
   ("pop_estimate_2022", dtype_at (e_pop B) (entities db));
   ("lat", dtype_at (e_lat B) (entities db));
   ("long", dtype_at (e_long B) (entities db));
   ("tech_names", object);
   ("sfdc_id", dtype_at (a_sfdc B) (customerA db));
   ("hubspot_id", dtype_at (b_hubspot B) (customerB db));
   ("document", object)].

(** The rows of [flattened_data] after [create_materialized_view]:
    [None] when the statement fails. *)
Definition create_materialized_view (db : Data) : option Table :=
  bind (base_layout db) (fun B =>
  bind (tags_layout B db) (fun T =>
  let js := from_clause B T db in
  Some (mkTable (view_columns B db)
                (map (fun k => select_row k (agg_names T (members B js k)))
                     (groups B js))))).

End View.

(** ** Notions used to state the properties of the frames *)

Module Notions.
Import Frame Clean Flatten.

(** No two of the keys match each other. *)
Fixpoint unique_keys (ks : list cell) : bool :=
  match ks with
  | [] => true
  | k :: ks' => forallb (fun k' => negb (key_match k k')) ks' && unique_keys ks'
  end.

(** The column [name] of [t] holds every key once at most (nothing is
    asked of a frame without that column). *)
Definition unique_on (name : string) (t : Table) : bool :=
  match col_index name t with
  | Some i => unique_keys (map (get i) (rows t))
  | None => true
  end.

(** What a left join on the key appends to the left row [lr] when the keys
    of the right frame are unique: the other fields of the matching right
    row, or missing values. *)
Definition joined_fields (li ri : nat) (right : Table) (lr : row) : row :=
  match matches li ri (rows right) lr with
  | rr :: _ => remove_nth ri rr
  | [] => map (fun c => fill_for (snd c)) (remove_nth ri (columns right))
  end.


(** The [tech_names] cell of a merged row whose place is [key]: the list
    of the names of all the tag rows of that place, in their order, or
    [NaN] when the place has no tag row or the key is missing. *)
Definition tech_names_cell (pi ni : nat) (tags : list row) (key : cell) : cell :=
  match key with
  | Scalar p =>
      if negb (is_na p)
         && existsb (fun r => key_match (Scalar p) (get pi r)) tags
      then PyList (names_of pi ni tags p)
      else Scalar SNaN
  | PyList _ => Scalar SNaN
  end.

(** No two of the scalars are alike. *)
Fixpoint apart (ks : list scalar) : Prop :=
  match ks with
  | [] => True
  | k :: ks' => (forall k', In k' ks' -> scalar_same k k' = false) /\ apart ks'
  end.

(** No two of the rows are alike. *)
Fixpoint rows_apart (rs : list row) : Prop :=
  match rs with
  | [] => True
  | r :: rs' => (forall r', In r' rs' -> row_same r r' = false) /\ rows_apart rs'
  end.

(** The positions of the columns labelled by [names]. *)
Fixpoint indices (names : list string) (cols : list (string * dtype))
  : option (list nat) :=
  match names with
  | [] => Some []
  | n :: names' =>
      match index_of n cols, indices names' cols with
      | Some i, Some js => Some (i :: js)
      | _, _ => None
      end
  end.

(** A row after [.str.strip()] on the columns at the positions [js]. *)
Definition strip_row (js : list nat) (r : row) : row :=
  fold_left (fun r j => map_nth j str_strip r) js r.



(** Whether some column is labelled [id] in some letter case. *)
Definition has_id (t : Table) : bool :=
  existsb (String.eqb "id") (map Py.lower (col_names t)).

End Notions.

(** ** The interactive loop, [interactive_postgres] *)

Module Interactive.
Import Py Translator.

Definition str_of_nat (n : nat) : string :=
  NilEmpty.string_of_uint (Nat.to_uint n).

(** [str(v)] as [print] shows a value. *)
Definition py_str (v : pyval) : string :=
  match v with
  | PyStr s => s
  | PyNone => "None"
  end.

(** The test that sends the input through the translator. *)
Definition is_shorthand (user_input : string) : bool :=
  startswith (lower user_input) "title:"
  || startswith (lower user_input) "emails:"
  || startswith (lower user_input) "range:"
  || startswith (lower user_input) "filter:"
  || startswith (lower user_input) "crm:"
  || contains colon user_input.

(** The statement chosen for one input, with the lines printed while
    choosing it. *)
Definition choose_query (user_input : string) : outcome * list string :=
  if is_shorthand user_input then
    match parse_custom_query user_input with
    | Return sql_query => (Return sql_query, ["SQL: " ++ py_str sql_query])
    | Raised e => (Raised e, [])
    end
  else (Return (PyStr user_input), []).

Inductive exit_status : Type :=
| Exited
| EndOfInput
| Crashed (e : string).

Section Backend.

(** The database behind the engine: its state, the rows of a result,
    [conn.execute(text(sql)).fetchall()] as a transition that yields
    the error message of an exception or all the rows of the result,
    [str] of a row, and the message of the exception that [text(None)]
    raises. *)
Variables DB Row : Type.
Variable execute : DB -> string -> DB * (string + list Row).
Variable show_row : Row -> string.
Variable text_none_error : string.

(** The inner [try] block: the lines printed for one statement. *)
Definition run_query (db : DB) (sql_query : pyval) : DB * list string :=
  match sql_query with
  | PyNone => (db, ["Error executing query: " ++ text_none_error])
  | PyStr sql =>
      match execute db sql with
      | (db', inr rows) =>
          (db', ("Returned " ++ str_of_nat (length rows) ++ " rows.")
                :: map show_row (firstn 10 rows))
      | (db', inl e) => (db', ["Error executing query: " ++ e])
      end
  end.

(** The [while True] loop over the lines that [input] returns; when
    they run out, [input] raises [EOFError]. *)
Fixpoint repl (db : DB) (inputs : list string)
  : DB * list string * exit_status :=
  match inputs with
  | [] => (db, ["EOF detected. Exiting."], EndOfInput)
  | line :: inputs' =>
      let user_input := strip line in
      if String.eqb (lower user_input) "exit"
         || String.eqb (lower user_input) "quit" then
        (db, ["Exiting PostgreSQL mode."], Exited)
      else
        match choose_query user_input with
        | (Raised e, out) => (db, out, Crashed e)
        | (Return sql_query, out) =>
            let (db1, out1) := run_query db sql_query in
            let '(db2, out2, st) := repl db1 inputs' in
            (db2, (out ++ out1 ++ out2)%list, st)
        end
  end.

Definition interactive_postgres (db : DB) (inputs : list string)
  : DB * list string * exit_status :=
  let '(db', out, st) := repl db inputs in
  (db',
   "PostgreSQL mode. Type SQL or shorthand queries (or 'exit')." :: out,
   st).

End Backend.

End Interactive.

(** ** The random identifiers, [random_sfdc_id] and [random_hubspot_id] *)

Module Ids.









End Ids.

(** ** Step 1 of the pipeline: [load_csv_data] *)

Module Loader.
Import Frame Clean.

Section Files.

(** [pd.read_csv] on a file of the data directory, by its name: the frame
    read, or [None] when it raises (no such file, nothing to parse). *)
Variable read_csv : string -> option Table.

(** The body of the loop: the labels of a frame that was read are
    lower-cased; a file that cannot be read gives [pd.DataFrame()]. *)
Definition load_frame (name : string) : Table :=
  match read_csv name with
  | Some df => lower_columns df
  | None => empty_frame
  end.

Definition load_csv_data : Data :=
  mkData (load_frame "contacts.csv")
         (load_frame "places.csv")
         (load_frame "techstacks.csv")
         (load_frame "customerA_mapping.csv")
         (load_frame "customerB_mapping.csv").

End Files.

End Loader.

(** ** The generated customer mappings, [ensure_customer_mapping_files] *)

Module Mapping.
Import Frame Clean Flatten Ids.




Section Files.

(** [os.path.exists] and [pd.read_csv] on a file of the data directory,
    by its name ([None]: it raises). *)
Variable exists_file : string -> bool.
Variable read_csv : string -> option Table.





End Files.

End Mapping.

(** ** Notions used to state the properties of the interactive loop *)

Module Session.
Import Py Translator Interactive.

(** [input("PG> ").strip().lower() in ("exit", "quit")] *)
Definition is_exit (line : string) : bool :=
  String.eqb (lower (strip line)) "exit" || String.eqb (lower (strip line)) "quit".


Section Log.

Variables DB Row : Type.
Variable execute : DB -> string -> DB * (string + list Row).


End Log.

End Session.

(** ** Notions used to state the further properties of the frames *)

Module Shapes.
Import Frame.

(** Every row of [short] is the front of a row of [long], and every row
    of [long] has a row of [short] as its front. *)
Definition extends (short long : list row) : Prop :=
  (forall a, In a short -> exists rest, In (a ++ rest)%list long)
  /\ (forall b, In b long -> exists a rest, In a short /\ b = (a ++ rest)%list).

(** A text cell in lower case, or NULL. *)
Definition lowered (c : cell) : Prop :=
  match c with
  | Scalar (SStr s) => Py.lower s = s
  | Scalar SNone => True
  | _ => False
  end.

End Shapes.

(** ** Sample inputs *)

Module Samples.
Import Frame Clean.

Definition str (s : string) : cell := Scalar (SStr s).
Definition num (z : Z) : cell := Scalar (SNum z).

(** Cleaned frames: three contacts, of which the third has no entity; two
    entities; three tags for place 10, none for place 20. *)
Definition contacts3 : Table :=
  mkTable [("id", int64); ("place_id", int64); ("emails", object);
           ("title", object); ("created_at", datetime64)]
          [[num 1; num 10; str "ann@gmail.com"; str "Senior Engineer";
            Scalar (STime 0)];
           [num 2; num 20; str "bob@example.org"; str "Manager"; Scalar SNaT];
           [num 3; num 99; str "cy@example.org"; str "Clerk"; Scalar SNaT]].

Definition entities2 : Table :=
  mkTable [("place_id", int64); ("display_name", object);
           ("pop_estimate_2022", int64); ("lat", float64); ("long", float64)]
          [[num 10; str "Springfield"; num 5000; num 40; num (-89)];
           [num 20; str "Shelbyville"; num 300; num 39; num (-88)]].

Definition tags4 : Table :=
  mkTable [("place_id", int64); ("name", object)]
          [[num 10; str "react"]; [num 30; str "go"];
           [num 10; str "node"]; [num 10; str "python"]].

Definition sfdc1 : Table :=
  mkTable [("sfdc_id", object); ("place_id", int64)] [[str "00AB12CD34EF"; num 10]].

Definition hubspot1 : Table :=
  mkTable [("hubspot_id", object); ("place_id", int64)] [[str "h7Yk2mQ9"; num 20]].

Definition cleaned : Data := mkData contacts3 entities2 tags4 sfdc1 hubspot1.


(** Two SFDC identifiers for place 10. *)
Definition two_sfdc : Data :=
  mkData contacts3 entities2 tags4
         (mkTable [("sfdc_id", object); ("place_id", int64)]
                  [[str "00AB12CD34EF"; num 10]; [str "00ZZ99YY88XX"; num 10]])
         hubspot1.

(** A raw contacts file without an [id] column; the second timestamp
    carries a time-zone annotation and the third is not a date. *)
Definition raw_contacts : Table :=
  mkTable [("Place_ID", int64); ("Emails", object); ("Title", object);
           ("Created_At", object)]
          [[num 10; str " ann@gmail.com"; str "Senior Engineer ";
            str "2024-01-01 00:00:00"];
           [num 20; str "bob@example.org"; str "Manager";
            str "2024-01-01 00:00:00 (Coordinated Universal Time)"];
           [num 99; str "cy@example.org"; str "Clerk"; str "soon"]].

Definition raw : Data := mkData raw_contacts entities2 tags4 sfdc1 hubspot1.


(** A parser that knows one date, and the printer that goes with it. *)
Definition parse_one_date (s : string) : option Z :=
  if String.eqb s "2024-01-01 00:00:00" then Some 1704067200000000000%Z
  else None.

Definition print_one_date (t : Z) : string := "2024-01-01 00:00:00".

Definition print_list (l : list scalar) : string := "[]".

(** A backend that answers every statement with the twelve rows 1..12. *)
Definition twelve_rows (db : unit) (sql : string) : unit * (string + list nat) :=
  (db, inr (seq 1 12)).

End Samples.

(** ** Further sample inputs *)

Module Cases.
Import Frame Clean Samples.

(** The cleaned frames with a tag file that has a header and no row. *)
Definition no_tags : Data :=
  mkData contacts3 entities2 (mkTable [("place_id", int64); ("name", object)] [])
         sfdc1 hubspot1.

(** A raw contacts file without a [created_at] column. *)
Definition no_created_at : Data :=
  mkData (mkTable [("Place_ID", int64); ("Emails", object)]
                  [[num 10; str "ann@gmail.com"]])
         entities2 tags4 sfdc1 hubspot1.

(** A raw entities file with a repeated row and padded names. *)
Definition raw_entities : Table :=
  mkTable [("Place_ID", int64); ("Display_Name", object)]
          [[num 10; str " Springfield"]; [num 10; str "Springfield "];
           [num 20; str "Shelbyville"]].

Definition raw_padded : Data :=
  mkData raw_contacts raw_entities tags4 sfdc1 hubspot1.

(** A data directory that holds the contacts file only. *)
Definition only_contacts (name : string) : option Table :=
  if String.eqb name "contacts.csv" then Some raw_contacts else None.





End Cases.

(* ===================================================================== *)
(** * Part II. Properties                                                 *)
(* ===================================================================== *)

(** ** Strings *)

Section StringFacts.
Import Py.

Lemma lower_char_colon (c : ascii) :
  Ascii.eqb (lower_char c) colon = Ascii.eqb c colon.
Proof.
  destruct c as [[] [] [] [] [] [] [] []]; reflexivity.
Qed.

Lemma contains_colon_lower (s : string) :
  contains colon (lower s) = contains colon s.
Proof.
  induction s as [|c s IH]; simpl; [reflexivity|].
  now rewrite lower_char_colon, IH.
Qed.

Lemma startswith_contains (c : ascii) (p s : string) :
  startswith s p = true -> contains c p = true -> contains c s = true.
Proof.
  revert s; induction p as [|a p IH]; intros s Hs Hc; simpl in *.
  - discriminate.
  - destruct s as [|b s]; [discriminate|].
    apply andb_true_iff in Hs as [Hab Hs].
    apply Ascii.eqb_eq in Hab; subst b. simpl.
    apply orb_true_iff in Hc as [Hc|Hc].
    + now rewrite Hc.
    + rewrite (IH s Hs Hc). apply orb_true_r.
Qed.

(** An input without a colon starts with no prefix that has one. *)
Lemma no_colon_no_prefix (q p : string) :
  contains colon q = false -> contains colon p = true ->
  startswith (lower q) p = false.
Proof.
  intros Hq Hp.
  destruct (startswith (lower q) p) eqn:E; [|reflexivity].
  pose proof (startswith_contains colon p (lower q) E Hp) as H.
  rewrite contains_colon_lower in H. congruence.
Qed.

Lemma split_colon_second (s : string) :
  contains colon s = true -> exists a b, split_colon s = [a; b].
Proof.
  induction s as [|c s IH]; simpl; [discriminate|].
  intros H. destruct (Ascii.eqb c colon) eqn:E.
  - now exists EmptyString, s.
  - simpl in H. destruct (IH H) as (a & b & ->). now exists (String c a), b.
Qed.

Lemma split_lstrip (s : string) : split (lstrip s) = split s.
Proof.
  induction s as [|c s IH]; [reflexivity|].
  simpl lstrip. destruct (isspace c) eqn:E.
  - rewrite IH. simpl. now rewrite E.
  - reflexivity.
Qed.

Lemma rstrip_head (c : ascii) (s : string) (c2 : ascii) (r2 : string) :
  rstrip (String c s) = String c2 r2 -> c2 = c.
Proof.
  simpl. destruct (rstrip s).
  - destruct (isspace c); [discriminate|]. now intros [= <- _].
  - now intros [= <- _].
Qed.

Lemma split_rstrip (s : string) : split (rstrip s) = split s.
Proof.
  induction s as [|c s IH]; [reflexivity|].
  simpl rstrip. destruct (rstrip s) as [|c2 r2] eqn:R.
  - simpl in IH. destruct (isspace c) eqn:E.
    + simpl. now rewrite E.
    + simpl. rewrite E. destruct s as [|c' s']; [reflexivity|].
      rewrite <- IH. now destruct (isspace c').
  - destruct s as [|c' s']; [discriminate|].
    pose proof (rstrip_head _ _ _ _ R) as ->.
    simpl. simpl in IH. now rewrite IH.
Qed.

Lemma split_strip (s : string) : split (strip s) = split s.
Proof. unfold strip. now rewrite split_rstrip, split_lstrip. Qed.

End StringFacts.

(** ** The translator *)

Section TranslatorFacts.
Import Py Translator Statements.

Lemma is_decimal_head (v : string) :
  is_decimal v = true ->
  exists c v', v = String c v' /\ isdigit c = true.
Proof.
  destruct v as [|c v']; unfold is_decimal; simpl; [discriminate|].
  destruct (isdigit c) eqn:E; [|discriminate].
  intros _. now exists c, v'.
Qed.

Lemma digit_not_eq_sign (c : ascii) :
  isdigit c = true -> Ascii.eqb "=" c = false.
Proof.
  intros H. destruct (Ascii.eqb_spec "="%char c) as [<-|]; [|reflexivity].
  discriminate H.
Qed.


Lemma range_prefix_excludes (s : string) :
  startswith s "range:" = true ->
  startswith s "title:" = false /\ startswith s "emails:" = false.
Proof.
  destruct s as [|a s]; [discriminate|]. cbn [startswith].
  intros H. apply andb_true_iff in H as [Ha _].
  apply Ascii.eqb_eq in Ha; subst a. now repeat split.
Qed.


Lemma parse_range_branch (q : string) :
  startswith (lower q) "range:" = true ->
  parse_custom_query q = parse_range q.
Proof.
  intros H. unfold parse_custom_query.
  destruct (range_prefix_excludes _ H) as (-> & ->).
  now rewrite H.
Qed.




(** The regular expression of the [range:] branch accepts an operator
    followed by an unsigned decimal, and returns the two. *)
Lemma re_match_range_ok (op v : string) :
  In op comparison_ops -> is_decimal v = true ->
  re_match_range (op ++ v) = Some (op, v).
Proof.
  intros Hop Hv.
  destruct (is_decimal_head v Hv) as (c & v' & -> & Hc).
  pose proof (digit_not_eq_sign c Hc) as Hne.
  simpl in Hop.
  destruct Hop as [<-|[<-|[<-|[<-|[]]]]];
    unfold re_match_range; cbn [re_match_ops]; unfold strip_prefix;
    cbn [startswith append slice_from String.length];
    rewrite ?Hne, ?Ascii.eqb_refl;
    change (Ascii.eqb ">" "<") with false;
    cbn [andb]; rewrite ?Hv; reflexivity.
Qed.

(** The [range:] branch on a well-formed two-token remainder. *)
Lemma range_two_tokens_ok (q field op v : string) :
  startswith (lower q) "range:" = true ->
  split (slice_from 6 q) = [field; op ++ v] ->
  In op comparison_ops -> is_decimal v = true ->
  parse_custom_query q = Return (PyStr (compare_statement field op v)).
Proof.
  intros Hq Hparts Hop Hv.
  rewrite (parse_range_branch q Hq). unfold parse_range.
  rewrite split_strip, Hparts.
  now rewrite (re_match_range_ok op v Hop Hv).
Qed.

(** The [range:] branch formats any three tokens. *)
Lemma range_three_tokens (q field op v : string) :
  startswith (lower q) "range:" = true ->
  split (slice_from 6 q) = [field; op; v] ->
  parse_custom_query q = Return (PyStr (compare_statement field op v)).
Proof.
  intros Hq Hparts.
  rewrite (parse_range_branch q Hq). unfold parse_range.
  now rewrite split_strip, Hparts.
Qed.

Lemma range_other_count (q : string) :
  startswith (lower q) "range:" = true ->
  length (split (slice_from 6 q)) <> 2 ->
  length (split (slice_from 6 q)) <> 3 ->
  parse_custom_query q = Return (PyStr invalid_range).
Proof.
  intros Hq H2 H3.
  rewrite (parse_range_branch q Hq). unfold parse_range.
  rewrite split_strip.
  destruct (split (slice_from 6 q)) as [|a [|b [|c [|d l]]]]; try reflexivity.
  - now contradiction H2.
  - now contradiction H3.
Qed.

End TranslatorFacts.

Section TranslatorClaims.
Import Py Translator Statements Interactive.

Lemma after_colon_defined (q : string) :
  contains colon q = true -> exists t, after_colon q = inl t.
Proof.
  intros H. destruct (split_colon_second q H) as (a & b & E).
  unfold after_colon. rewrite E. now exists b.
Qed.

Lemma prefix_has_colon (q p : string) :
  startswith (lower q) p = true -> contains colon p = true ->
  contains colon q = true.
Proof.
  intros Hs Hp. rewrite <- contains_colon_lower.
  exact (startswith_contains colon p (lower q) Hs Hp).
Qed.

(** The translator returns on every input: none of its indexing or
    unpacking steps can raise. *)
Lemma parse_custom_query_returns (q : string) :
  exists v, parse_custom_query q = Return v.
Proof.
  unfold parse_custom_query.
  destruct (startswith (lower q) "title:") eqn:Et.
  { destruct (after_colon_defined q (prefix_has_colon q _ Et eq_refl)) as (t & ->).
    eexists; reflexivity. }
  destruct (startswith (lower q) "emails:") eqn:Ee.
  { destruct (after_colon_defined q (prefix_has_colon q _ Ee eq_refl)) as (t & ->).
    eexists; reflexivity. }
  destruct (startswith (lower q) "range:") eqn:Er.
  { unfold parse_range.
    destruct (split (strip (slice_from 6 q))) as [|a [|b [|c [|d l]]]];
      try (eexists; reflexivity).
    destruct (re_match_range b) as [[op v]|]; eexists; reflexivity. }
  destruct (startswith (lower q) "filter:") eqn:Ef.
  { unfold parse_filter.
    destruct (parse_filter_body q); eexists; reflexivity. }
  destruct (startswith (lower q) "crm:") eqn:Ec.
  { unfold parse_crm.
    destruct (after_colon_defined q (prefix_has_colon q _ Ec eq_refl)) as (t & ->).
    destruct (String.eqb (lower (strip t)) "a");
      [eexists; reflexivity|].
    destruct (String.eqb (lower (strip t)) "b");
      [eexists; reflexivity|].
    destruct (String.eqb (lower (strip t)) "all"); eexists; reflexivity. }
  destruct (contains colon q) eqn:Eq.
  { destruct (split_colon_second q Eq) as (a & b & ->). eexists; reflexivity. }
  eexists; reflexivity.
Qed.

(** The translator on an input without a colon. *)
Lemma parse_colon_free (q : string) :
  contains colon q = false ->
  parse_custom_query q = Return (PyStr (full_text_statement q)).
Proof.
  intros H. unfold parse_custom_query.
  rewrite (no_colon_no_prefix q "title:" H eq_refl),
    (no_colon_no_prefix q "emails:" H eq_refl),
    (no_colon_no_prefix q "range:" H eq_refl),
    (no_colon_no_prefix q "filter:" H eq_refl),
    (no_colon_no_prefix q "crm:" H eq_refl), H.
  reflexivity.
Qed.

(** The interactive loop on an input without a colon. *)
Lemma choose_colon_free (q : string) :
  contains colon q = false -> choose_query q = (Return (PyStr q), []).
Proof.
  intros H. unfold choose_query, is_shorthand.
  rewrite (no_colon_no_prefix q "title:" H eq_refl),
    (no_colon_no_prefix q "emails:" H eq_refl),
    (no_colon_no_prefix q "range:" H eq_refl),
    (no_colon_no_prefix q "filter:" H eq_refl),
    (no_colon_no_prefix q "crm:" H eq_refl), H.
  reflexivity.
Qed.

(** C3 (defect in the code).  An input that begins with [range:] and has a
    malformed operator or value is not answered with a structured error:
    three tokens are formatted into an executable statement without any
    check, and a two-token input whose second token fails the regular
    expression makes the function return Python's [None]. *)
Theorem range_malformed_not_rejected :
  parse_custom_query "range: pop_estimate_2022 ~ abc"
  = Return (PyStr "SELECT * FROM flattened_data WHERE pop_estimate_2022 ~ abc;")
  /\ structured_error (parse_custom_query "range: pop_estimate_2022 ~ abc") = false
  /\ parse_custom_query "range: pop_estimate_2022 >abc" = Return PyNone
  /\ structured_error (parse_custom_query "range: pop_estimate_2022 >abc") = false
  /\ structured_error (parse_custom_query "range: a b c d") = true.
Proof. repeat split; reflexivity. Qed.



(** C6, as the code has it.  On an input without a colon the translator
    returns the full-text statement that matches [document] against the
    whole input; the interactive loop does not send such an input through
    the translator, it takes the input itself as the statement to
    execute. *)
Theorem colon_free_query (q : string) :
  contains colon q = false ->
  parse_custom_query q = Return (PyStr (full_text_statement q))
  /\ choose_query q = (Return (PyStr q), []).
Proof.
  intros H. split; [now apply parse_colon_free | now apply choose_colon_free].
Qed.

Lemma colon_free_query_witness :
  contains colon "node" = false
  /\ parse_custom_query "node" = Return (PyStr (full_text_statement "node"))
  /\ choose_query "node" = (Return (PyStr "node"), []).
Proof.
  split; [reflexivity|]. apply (colon_free_query "node"). reflexivity.
Defined.

(** C6 as stated fails: the statement that the query path hands to the
    executor for the colon-free input [node] is the text [node], not a
    full-text match. *)
Lemma colon_free_not_full_text :
  ~ (forall q, contains colon q = false ->
               fst (choose_query q) = Return (PyStr (full_text_statement q))).
Proof.
  intros H. specialize (H "node" eq_refl). discriminate H.
Qed.



(** The literal cases of the translator. *)

Example translate_title :
  parse_custom_query "title: engineer"
  = Return (PyStr "SELECT * FROM flattened_data WHERE lower(title) ILIKE '%engineer%';").
Proof. reflexivity. Qed.

Example translate_range :
  parse_custom_query "range: pop_estimate_2022 >100"
  = Return (PyStr (compare_statement "pop_estimate_2022" ">" "100")).
Proof. reflexivity. Qed.

Example translate_range_spaced :
  parse_custom_query "RANGE:pop_estimate_2022 <= 2500.5"
  = Return (PyStr (compare_statement "pop_estimate_2022" "<=" "2500.5")).
Proof. reflexivity. Qed.

Example translate_filter :
  parse_custom_query "filter: gmail react >=500"
  = Return (PyStr (filter_statement "gmail" "react" ">=" "500")).
Proof. reflexivity. Qed.

Example translate_filter_two_tokens :
  parse_custom_query "filter: gmail react" = Return (PyStr invalid_filter).
Proof. reflexivity. Qed.

Example translate_crm :
  parse_custom_query "crm:a"
  = Return (PyStr "SELECT * FROM flattened_data WHERE sfdc_id IS NOT NULL;")
  /\ parse_custom_query "crm:z" = Return (PyStr invalid_crm).
Proof. split; reflexivity. Qed.

Example translate_free_text :
  parse_custom_query "node" = Return (PyStr (full_text_statement "node")).
Proof. reflexivity. Qed.

End TranslatorClaims.

(** ** The executor *)

Section ExecutorClaims.
Import Py Translator Statements Interactive.

Variables DB Row : Type.
Variable execute : DB -> string -> DB * (string + list Row).
Variable show_row : Row -> string.
Variable text_none_error : string.

(** One turn of the loop on a line that is not [exit] or [quit]: the
    statement chosen for the line is run, and the loop goes on. *)
Lemma repl_turn (db : DB) (line : string) (inputs : list string)
    (sql_query : pyval) (out : list string) :
  String.eqb (lower (strip line)) "exit" = false ->
  String.eqb (lower (strip line)) "quit" = false ->
  choose_query (strip line) = (Return sql_query, out) ->
  repl DB Row execute show_row text_none_error db (line :: inputs)
  = let (db1, out1) := run_query DB Row execute show_row text_none_error db sql_query in
    let '(db2, out2, st) := repl DB Row execute show_row text_none_error db1 inputs in
    (db2, (out ++ out1 ++ out2)%list, st).
Proof.
  intros He Hq Hc. cbn [repl]. now rewrite He, Hq, Hc.
Qed.

(** The line that shows the translation of a shorthand input is the same
    whatever the database and its state are. *)
Lemma repl_shows_translation (db : DB) (line : string) (inputs : list string)
    (v : pyval) :
  String.eqb (lower (strip line)) "exit" = false ->
  String.eqb (lower (strip line)) "quit" = false ->
  is_shorthand (strip line) = true ->
  parse_custom_query (strip line) = Return v ->
  exists db' out st,
    repl DB Row execute show_row text_none_error db (line :: inputs)
    = (db', ("SQL: " ++ py_str v) :: out, st).
Proof.
  intros He Hq Hs Hp.
  assert (Hc : choose_query (strip line) = (Return v, ["SQL: " ++ py_str v])).
  { unfold choose_query. now rewrite Hs, Hp. }
  rewrite (repl_turn db line inputs v _ He Hq Hc).
  destruct (run_query DB Row execute show_row text_none_error db v) as [db1 out1].
  destruct (repl DB Row execute show_row text_none_error db1 inputs)
    as [[db2 out2] st].
  now exists db2, (out1 ++ out2)%list, st.
Qed.

(** C8.  When the backend answers a statement with rows, the executor
    prints the number of all the rows as the total and then the first ten
    rows at most: the preview is [rows[:10]], never longer than ten, and
    exactly ten when more than ten rows matched. *)
Theorem preview_bounded (db db' : DB) (sql : string) (rows : list Row) :
  execute db sql = (db', inr rows) ->
  run_query DB Row execute show_row text_none_error db (PyStr sql)
  = (db', ("Returned " ++ str_of_nat (length rows) ++ " rows.")
          :: map show_row (firstn 10 rows))
  /\ length (map show_row (firstn 10 rows)) <= 10
  /\ (10 < length rows -> length (map show_row (firstn 10 rows)) = 10)
  /\ (length rows <= 10 -> firstn 10 rows = rows).
Proof.
  intros E. unfold run_query. rewrite E. split; [reflexivity|].
  rewrite length_map, length_firstn. repeat split.
  - apply Nat.le_min_l.
  - intros H. apply Nat.min_l. lia.
  - intros H. now apply firstn_all2.
Qed.

End ExecutorClaims.

Lemma preview_bounded_witness :
  Samples.twelve_rows tt "SELECT * FROM flattened_data;" = (tt, inr (seq 1 12))
  /\ Interactive.run_query unit nat Samples.twelve_rows Interactive.str_of_nat "error" tt
       (PyStr "SELECT * FROM flattened_data;")
     = (tt, ["Returned 12 rows."; "1"; "2"; "3"; "4"; "5"; "6"; "7"; "8"; "9"; "10"]).
Proof.
  split; [reflexivity|].
  exact (proj1 (preview_bounded unit nat Samples.twelve_rows Interactive.str_of_nat "error"
                  tt tt "SELECT * FROM flattened_data;" (seq 1 12) eq_refl)).
Defined.

(** ** Keys and left joins *)

Section JoinFacts.
Import Frame Clean Flatten Notions.

Lemma scalar_eqb_eq (a b : scalar) : scalar_eqb a b = true <-> a = b.
Proof.
  destruct a, b; simpl; split; intros H; try discriminate; try reflexivity.
  - apply String.eqb_eq in H. now subst.
  - injection H as ->. apply String.eqb_refl.
  - apply Z.eqb_eq in H. now subst.
  - injection H as ->. apply Z.eqb_refl.
  - apply Z.eqb_eq in H. now subst.
  - injection H as ->. apply Z.eqb_refl.
Qed.

Lemma scalar_same_sym (a b : scalar) : scalar_same a b = scalar_same b a.
Proof.
  unfold scalar_same. rewrite (andb_comm (is_na a)). f_equal.
  destruct (scalar_eqb a b) eqn:E.
  - apply scalar_eqb_eq in E. subst. symmetry.
    now apply scalar_eqb_eq.
  - destruct (scalar_eqb b a) eqn:E'; [|reflexivity].
    apply scalar_eqb_eq in E'. subst.
    assert (scalar_eqb a a = true) by now apply scalar_eqb_eq.
    congruence.
Qed.

Lemma scalar_same_trans (a b c : scalar) :
  scalar_same a b = true -> scalar_same b c = true -> scalar_same a c = true.
Proof.
  unfold scalar_same. intros H1 H2.
  apply orb_true_iff in H1. apply orb_true_iff in H2. apply orb_true_iff.
  destruct H1 as [H1|H1], H2 as [H2|H2].
  - apply andb_true_iff in H1 as [Ha _]. apply andb_true_iff in H2 as [_ Hc].
    left. now rewrite Ha, Hc.
  - apply scalar_eqb_eq in H2. subst. now left.
  - apply scalar_eqb_eq in H1. subst. now left.
  - apply scalar_eqb_eq in H1. subst. now right.
Qed.

(** Between values that are not missing, alike means equal. *)
Lemma scalar_same_eq (a b : scalar) :
  is_na a = false -> scalar_same a b = true -> a = b.
Proof.
  unfold scalar_same. intros Ha H. rewrite Ha in H. simpl in H.
  now apply scalar_eqb_eq.
Qed.

Lemma scalar_same_refl (a : scalar) : scalar_same a a = true.
Proof.
  unfold scalar_same. apply orb_true_iff. right. now apply scalar_eqb_eq.
Qed.

Lemma key_match_sym (a b : cell) : key_match a b = key_match b a.
Proof. destruct a, b; simpl; try reflexivity. apply scalar_same_sym. Qed.

Lemma key_match_trans (a b c : cell) :
  key_match a b = true -> key_match b c = true -> key_match a c = true.
Proof.
  destruct a, b, c; simpl; try discriminate. apply scalar_same_trans.
Qed.

Lemma filter_none {A : Type} (f : A -> bool) (l : list A) :
  (forall x, In x l -> f x = false) -> filter f l = [].
Proof.
  induction l as [|x l IH]; simpl; intros H; [reflexivity|].
  rewrite (H x (or_introl eq_refl)). apply IH. intros y Hy. apply H. now right.
Qed.

(** Among unique keys, a key is matched once at most. *)
Lemma unique_keys_one_match (ri : nat) (rs : list row) (k : cell) :
  unique_keys (map (get ri) rs) = true ->
  length (filter (fun rr => key_match k (get ri rr)) rs) <= 1.
Proof.
  induction rs as [|r rs IH]; simpl; [lia|].
  intros H. apply andb_true_iff in H as [Hr Hrs].
  destruct (key_match k (get ri r)) eqn:E; [|now apply IH].
  simpl.
  assert (filter (fun rr => key_match k (get ri rr)) rs = []) as ->; [|simpl; lia].
  apply filter_none. intros r' Hin.
  destruct (key_match k (get ri r')) eqn:E'; [|reflexivity].
  rewrite forallb_forall in Hr.
  specialize (Hr (get ri r') (in_map _ _ _ Hin)).
  apply negb_true_iff in Hr.
  rewrite key_match_sym in E.
  now rewrite (key_match_trans _ _ _ E E') in Hr.
Qed.

(** With one match at most, a left row yields exactly one joined row. *)
Lemma join_row_single (li ri : nat) (right : Table) (lr : row) :
  length (matches li ri (rows right) lr) <= 1 ->
  join_row li ri right lr = [(lr ++ joined_fields li ri right lr)%list].
Proof.
  unfold join_row, joined_fields.
  destruct (matches li ri (rows right) lr) as [|rr [|rr' ms]]; simpl;
    intros H; [reflexivity | reflexivity | lia].
Qed.

Lemma flat_map_singletons {A B : Type} (f : A -> list B) (g : A -> B)
    (l : list A) :
  (forall x, In x l -> f x = [g x]) -> flat_map f l = map g l.
Proof.
  induction l as [|x l IH]; simpl; intros H; [reflexivity|].
  rewrite (H x (or_introl eq_refl)), IH; [reflexivity|].
  intros y Hy. apply H. now right.
Qed.

(** A left join against a frame with unique keys keeps the left rows, in
    order, one for one, each extended by the joined fields. *)
Lemma merge_left_unique (left right : Table) (key : string)
    (sfx : string * string) (m : Table) :
  merge_left left right key sfx = Some m ->
  unique_on key right = true ->
  exists li ri,
    col_index key left = Some li /\ col_index key right = Some ri
    /\ rows m = map (fun lr => (lr ++ joined_fields li ri right lr)%list) (rows left).
Proof.
  unfold merge_left, unique_on.
  destruct (col_index key left) as [li|]; [|discriminate].
  destruct (col_index key right) as [ri|]; [|discriminate].
  intros [= <-] Hu. exists li, ri. repeat split. simpl.
  apply flat_map_singletons. intros lr _.
  apply join_row_single. unfold matches.
  now apply unique_keys_one_match.
Qed.

Lemma merge_left_unique_length (left right : Table) (key : string)
    (sfx : string * string) (m : Table) :
  merge_left left right key sfx = Some m ->
  unique_on key right = true ->
  nrows m = nrows left.
Proof.
  intros Hm Hu.
  destruct (merge_left_unique _ _ _ _ _ Hm Hu) as (li & ri & _ & _ & E).
  unfold nrows. now rewrite E, length_map.
Qed.

End JoinFacts.

(** ** Grouping the tags *)

Section GroupFacts.
Import Frame Clean Flatten Notions.

Lemma apart_filter (f : scalar -> bool) (ks : list scalar) :
  apart ks -> apart (filter f ks).
Proof.
  induction ks as [|k ks IH]; simpl; [trivial|].
  intros [Hk Hks]. destruct (f k); simpl; [|now apply IH].
  split; [|now apply IH].
  intros k' Hin. apply filter_In in Hin as [Hin _]. now apply Hk.
Qed.

Lemma distinct_keys_apart (ks : list scalar) : apart (distinct_keys ks).
Proof.
  induction ks as [|k ks IH]; simpl; [trivial|]. split.
  - intros k' Hin. apply filter_In in Hin as [_ H].
    now apply negb_true_iff in H.
  - now apply apart_filter.
Qed.

Lemma distinct_keys_incl (ks : list scalar) (k : scalar) :
  In k (distinct_keys ks) -> In k ks.
Proof.
  induction ks as [|h ks IH]; simpl; [trivial|].
  intros [->|Hin]; [now left|]. right.
  apply filter_In in Hin as [Hin _]. now apply IH.
Qed.

Lemma distinct_keys_keeps (ks : list scalar) (k : scalar) :
  is_na k = false -> In k ks -> In k (distinct_keys ks).
Proof.
  intros Hk. induction ks as [|h ks IH]; simpl; [trivial|].
  intros [->|Hin]; [now left|].
  destruct (scalar_same h k) eqn:E.
  - left. rewrite scalar_same_sym in E. symmetry. now apply scalar_same_eq.
  - right. apply filter_In. split; [now apply IH|]. now rewrite E.
Qed.

Lemma insert_sorted_In (k x : scalar) (ks : list scalar) :
  In x (insert_sorted k ks) <-> x = k \/ In x ks.
Proof.
  induction ks as [|h ks IH]; simpl.
  - intuition congruence.
  - destruct (scalar_leb k h); simpl; [intuition congruence|].
    rewrite IH. intuition congruence.
Qed.

Lemma sort_keys_In (x : scalar) (ks : list scalar) :
  In x (sort_keys ks) <-> In x ks.
Proof.
  induction ks as [|h ks IH]; simpl; [tauto|].
  rewrite insert_sorted_In, IH. intuition congruence.
Qed.

Lemma insert_sorted_apart (k : scalar) (ks : list scalar) :
  (forall k', In k' ks -> scalar_same k k' = false) -> apart ks ->
  apart (insert_sorted k ks).
Proof.
  induction ks as [|h ks IH]; simpl; intros Hk Hks.
  - split; [intros ? []|trivial].
  - destruct Hks as [Hh Hks]. destruct (scalar_leb k h); simpl.
    + split; [|now split]. intros k' [<-|Hin]; apply Hk; auto.
    + split.
      * intros k' Hin. apply insert_sorted_In in Hin as [->|Hin].
        -- rewrite scalar_same_sym. apply Hk. now left.
        -- now apply Hh.
      * apply IH; [|assumption]. intros k' Hin. apply Hk. now right.
Qed.

Lemma sort_keys_apart (ks : list scalar) : apart ks -> apart (sort_keys ks).
Proof.
  induction ks as [|k ks IH]; simpl; [trivial|].
  intros [Hk Hks]. apply insert_sorted_apart; [|now apply IH].
  intros k' Hin. apply Hk. now apply sort_keys_In.
Qed.

Lemma group_keys_apart (pi : nat) (rs : list row) : apart (group_keys pi rs).
Proof. unfold group_keys. apply sort_keys_apart, distinct_keys_apart. Qed.

Lemma group_keys_In (pi : nat) (rs : list row) (k : scalar) :
  In k (group_keys pi rs) <->
  is_na k = false /\ In k (map (fun r => scalar_of (get pi r)) rs).
Proof.
  unfold group_keys. rewrite sort_keys_In. split.
  - intros H. apply distinct_keys_incl in H.
    apply filter_In in H as [Hin Hna]. apply negb_true_iff in Hna. now split.
  - intros [Hna Hin]. apply distinct_keys_keeps; [assumption|].
    apply filter_In. split; [assumption|]. now rewrite Hna.
Qed.

(** A key that is not missing is a group key exactly when some row
    carries it. *)
Lemma group_keys_exists (pi : nat) (rs : list row) (p : scalar) :
  is_na p = false ->
  (In p (group_keys pi rs)
   <-> existsb (fun r => key_match (Scalar p) (get pi r)) rs = true).
Proof.
  intros Hp. rewrite group_keys_In, existsb_exists. split.
  - intros [_ Hin]. apply in_map_iff in Hin as (r & E & Hin).
    exists r. split; [assumption|].
    destruct (get pi r) as [v|l]; simpl in *.
    + subst v. apply scalar_same_refl.
    + subst p. discriminate Hp.
  - intros (r & Hin & E). split; [assumption|].
    apply in_map_iff. exists r. split; [|assumption].
    destruct (get pi r) as [v|l]; simpl in *; [|discriminate].
    symmetry. now apply scalar_same_eq.
Qed.

Lemma apart_filter_single (ks : list scalar) (p : scalar) :
  apart ks -> In p ks -> filter (fun k => scalar_same p k) ks = [p].
Proof.
  induction ks as [|k ks IH]; simpl; [intros _ []|].
  intros [Hk Hks] [->|Hin].
  - rewrite scalar_same_refl. f_equal. apply filter_none.
    intros k' Hin. now apply Hk.
  - rewrite scalar_same_sym, (Hk p Hin). now apply IH.
Qed.

End GroupFacts.

(** ** The tags enter the merge aggregated *)

Section TagFacts.
Import Frame Clean Flatten Notions.

Lemma filter_map_swap {A B : Type} (f : B -> bool) (g : A -> B) (l : list A) :
  filter f (map g l) = map g (filter (fun x => f (g x)) l).
Proof.
  induction l as [|x l IH]; simpl; [reflexivity|].
  destruct (f (g x)); simpl; now rewrite IH.
Qed.

(** The one row that [merge_left] makes of a left row against the grouped
    tags. *)
Lemma join_grouped_row (li pi ni : nat) (d : dtype) (tags : list row) (lr : row) :
  join_row li 0
    (mkTable [("place_id", d); ("tech_names", object)]
       (map (fun k => [Scalar k; PyList (names_of pi ni tags k)])
            (group_keys pi tags))) lr
  = [(lr ++ [tech_names_cell pi ni tags (get li lr)])%list].
Proof.
  unfold join_row, matches. cbn [rows columns].
  rewrite filter_map_swap. cbn [get nth].
  unfold tech_names_cell.
  destruct (get li lr) as [p|l].
  - destruct (is_na p) eqn:Hna; cbn [negb andb].
    + cbn [key_match]. rewrite filter_none; [reflexivity|].
      intros k Hk. apply group_keys_In in Hk as [Hk _].
      unfold scalar_same. rewrite Hna, Hk. simpl.
      destruct (scalar_eqb p k) eqn:E; [|reflexivity].
      apply scalar_eqb_eq in E. congruence.
    + destruct (existsb (fun r => key_match (Scalar p) (get pi r)) tags) eqn:Ex;
        cbn [key_match].
      * apply (group_keys_exists pi tags p Hna) in Ex.
        rewrite (apart_filter_single _ p (group_keys_apart pi tags) Ex).
        reflexivity.
      * rewrite filter_none; [reflexivity|].
        intros k Hk. destruct (scalar_same p k) eqn:E; [|reflexivity].
        apply (scalar_same_eq p k Hna) in E. subst k.
        apply (group_keys_exists pi tags p Hna) in Hk. congruence.
  - cbn [key_match]. rewrite filter_none; [reflexivity|]. now intros.
Qed.

(** The step of [flatten_data] that brings in the tags.  Whatever the tag
    frame holds, the result has the rows of [merged], one for one; and
    when the tag frame is not empty each row is the row of [merged] with
    one cell appended, the list of all the tag names of its place. *)
Lemma add_tech_names_rows (merged ts m : Table) :
  add_tech_names merged ts = Some m ->
  nrows m = nrows merged
  /\ (empty ts = false ->
      exists li pi ni,
        col_index "place_id" merged = Some li
        /\ col_index "place_id" ts = Some pi
        /\ col_index "name" ts = Some ni
        /\ rows m = map (fun lr =>
                           (lr ++ [tech_names_cell pi ni (rows ts) (get li lr)])%list)
                        (rows merged)).
Proof.
  unfold add_tech_names. destruct (empty ts) eqn:Ets; cbn [negb].
  - intros [= <-]. split; [|discriminate].
    unfold assign_none, nrows. destruct (has_column "tech_names" merged);
      cbn [rows]; now rewrite length_map.
  - unfold group_tech_names.
    destruct (col_index "place_id" ts) as [pi|] eqn:Epi; [|discriminate].
    destruct (col_index "name" ts) as [ni|] eqn:Eni; [|discriminate].
    unfold merge_left.
    destruct (col_index "place_id" merged) as [li|] eqn:Eli; [|discriminate].
    cbv beta iota.
    match goal with
    | |- context [col_index "place_id" (mkTable ?c ?r)] =>
        change (col_index "place_id" (mkTable c r)) with (Some 0)
    end.
    intros [= <-]. cbn [rows].
    assert (E : flat_map
                  (join_row li 0
                     (mkTable
                        [("place_id", snd (nth pi (columns ts) (EmptyString, object)));
                         ("tech_names", object)]
                        (map (fun k => [Scalar k; PyList (names_of pi ni (rows ts) k)])
                             (group_keys pi (rows ts)))))
                  (rows merged)
                = map (fun lr =>
                         (lr ++ [tech_names_cell pi ni (rows ts) (get li lr)])%list)
                      (rows merged)).
    { apply flat_map_singletons. intros lr _. apply join_grouped_row. }
    split.
    + unfold nrows. cbn [rows]. now rewrite E, length_map.
    + intros _. exists li, pi, ni. now rewrite E.
Qed.


End TagFacts.

(** ** Row counts of [flatten_data] *)

Section FlattenClaims.
Import Frame Clean Flatten Notions.

Lemma merge_if_nonempty_length (merged right m : Table) :
  merge_if_nonempty merged right = Some m ->
  unique_on "place_id" right = true ->
  nrows m = nrows merged.
Proof.
  unfold merge_if_nonempty. destruct (empty right); cbn [negb].
  - now intros [= <-].
  - apply merge_left_unique_length.
Qed.




(** The number of rows of the flattened frame when no place is repeated
    in the entities and in the two customer mappings. *)
Lemma flatten_length_unique (d : Data) (m : Table) :
  flatten_data d = Some m ->
  empty (contacts d) = false ->
  empty (entities d) = false ->
  unique_on "place_id" (entities d) = true ->
  unique_on "place_id" (customerA d) = true ->
  unique_on "place_id" (customerB d) = true ->
  nrows m = nrows (contacts d).
Proof.
  unfold flatten_data. intros Hf Hc He Hue Hua Hub.
  rewrite Hc, He in Hf. cbn [orb] in Hf.
  destruct (merge_left (contacts d) (entities d) "place_id"
              ("_contact", "_entity")) as [m0|] eqn:E0; [|discriminate].
  destruct (add_tech_names m0 (techstacks d)) as [m1|] eqn:E1; [|discriminate].
  destruct (merge_if_nonempty m1 (customerA d)) as [m2|] eqn:E2; [|discriminate].
  rewrite (merge_if_nonempty_length _ _ _ Hf Hub).
  rewrite (merge_if_nonempty_length _ _ _ E2 Hua).
  rewrite (proj1 (add_tech_names_rows _ _ _ E1)).
  now apply (merge_left_unique_length _ _ _ _ _ E0).
Qed.

(** With unique mapping keys the count of the final rows is that of the
    contact rows, whatever the tag frame is. *)
Corollary flatten_count_ignores_tags (d : Data) (ts : Table) (m m' : Table) :
  flatten_data d = Some m ->
  flatten_data (mkData (contacts d) (entities d) ts (customerA d) (customerB d))
  = Some m' ->
  empty (contacts d) = false ->
  empty (entities d) = false ->
  unique_on "place_id" (entities d) = true ->
  unique_on "place_id" (customerA d) = true ->
  unique_on "place_id" (customerB d) = true ->
  nrows m' = nrows m.
Proof.
  intros Hm Hm' Hc He Hue Hua Hub.
  rewrite (flatten_length_unique d m Hm Hc He Hue Hua Hub).
  exact (flatten_length_unique _ m' Hm' Hc He Hue Hua Hub).
Qed.

End FlattenClaims.

Section FlattenExamples.
Import Frame Clean Flatten Notions Samples.



(** A place with two SFDC identifiers doubles the row of its contact. *)
Lemma mapping_duplicates_fan_out :
  exists m, flatten_data two_sfdc = Some m /\ nrows m = 4.
Proof. eexists. split; vm_compute; reflexivity. Qed.


(** The flattened sample: the three tags of place 10 are one list in the
    row of its contact, and the contact of place 99 stays, with missing
    values. *)
Example flatten_sample_tech_names :
  match flatten_data cleaned with
  | Some m => map (fun r => (get 0 r, get 9 r)) (rows m)
  | None => []
  end
  = [(num 1, PyList [SStr "react"; SStr "node"; SStr "python"]);
     (num 2, Scalar SNaN);
     (num 3, Scalar SNaN)].
Proof. vm_compute. reflexivity. Qed.

End FlattenExamples.

(** ** Rows: stripping, numbering, removing duplicates *)

Section RowFacts.
Import Py Frame Clean Flatten Notions.

Lemma lower_char_idem (c : ascii) : lower_char (lower_char c) = lower_char c.
Proof. destruct c as [[] [] [] [] [] [] [] []]; reflexivity. Qed.

Lemma lower_idem (s : string) : lower (lower s) = lower s.
Proof.
  induction s as [|c s IH]; simpl; [reflexivity|].
  now rewrite lower_char_idem, IH.
Qed.

Lemma rstrip_idem (s : string) : rstrip (rstrip s) = rstrip s.
Proof.
  induction s as [|c s IH]; [reflexivity|].
  cbn [rstrip]. destruct (rstrip s) as [|c2 r2] eqn:R.
  - destruct (isspace c) eqn:E; [reflexivity|].
    cbn [rstrip]. now rewrite E.
  - cbn [rstrip]. cbn [rstrip] in IH. now rewrite IH.
Qed.

(** The head of a text stripped on the left is not white space. *)
Lemma lstrip_head (s : string) (c : ascii) (r : string) :
  lstrip s = String c r -> isspace c = false.
Proof.
  induction s as [|a s IH]; simpl; [discriminate|].
  destruct (isspace a) eqn:E; [assumption|]. now intros [= <- _].
Qed.

Lemma strip_idem (s : string) : strip (strip s) = strip s.
Proof.
  unfold strip.
  assert (H : lstrip (rstrip (lstrip s)) = rstrip (lstrip s)).
  { destruct (lstrip s) as [|c r] eqn:L; [reflexivity|].
    pose proof (lstrip_head s c r L) as Hc.
    destruct (rstrip (String c r)) as [|c2 r2] eqn:R; [reflexivity|].
    pose proof (rstrip_head _ _ _ _ R) as ->.
    simpl. now rewrite Hc. }
  rewrite H. apply rstrip_idem.
Qed.

Lemma str_strip_idem (c : cell) : str_strip (str_strip c) = str_strip c.
Proof.
  destruct c as [[s| | | | |]|l]; simpl; try reflexivity.
  now rewrite strip_idem.
Qed.

(** *** [map_nth] *)

Lemma map_nth_nth_error (i k : nat) (f : cell -> cell) (r : row) :
  nth_error (map_nth i f r) k
  = if (k =? i)%nat then option_map f (nth_error r k) else nth_error r k.
Proof.
  revert i k; induction r as [|c r IH]; intros i k.
  - destruct i, k; simpl; try reflexivity; now destruct (k =? i)%nat.
  - destruct i, k; simpl; try reflexivity. apply IH.
Qed.

Lemma map_nth_fixed (i : nat) (f : cell -> cell) (r : row) :
  (forall c, nth_error r i = Some c -> f c = c) -> map_nth i f r = r.
Proof.
  revert i; induction r as [|c r IH]; intros [|i] H; simpl; auto.
  - now rewrite (H c eq_refl).
  - now rewrite IH.
Qed.

Lemma strip_row_nth_error (js : list nat) (r : row) (k : nat) :
  nth_error (strip_row js r) k
  = option_map (fun c => if existsb (Nat.eqb k) js then str_strip c else c)
               (nth_error r k).
Proof.
  unfold strip_row. revert r.
  induction js as [|j js IH]; intros r; simpl.
  - now destruct (nth_error r k).
  - rewrite IH, map_nth_nth_error.
    destruct (k =? j)%nat eqn:E; simpl.
    + destruct (nth_error r k); simpl; [|reflexivity].
      destruct (existsb (Nat.eqb k) js); [now rewrite str_strip_idem|reflexivity].
    + reflexivity.
Qed.

Lemma strip_row_idem (js : list nat) (r : row) :
  strip_row js (strip_row js r) = strip_row js r.
Proof.
  apply nth_error_ext. intros k.
  rewrite !strip_row_nth_error.
  destruct (nth_error r k); simpl; [|reflexivity].
  destruct (existsb (Nat.eqb k) js); [now rewrite str_strip_idem|reflexivity].
Qed.

Lemma strip_row_cons (js : list nat) (c : cell) (r : row) :
  strip_row (map S js) (c :: r) = c :: strip_row js r.
Proof.
  unfold strip_row. revert r.
  induction js as [|j js IH]; intros r; simpl; [reflexivity|]. apply IH.
Qed.

(** *** [drop_duplicates] *)

Lemma rows_apart_filter (f : row -> bool) (rs : list row) :
  rows_apart rs -> rows_apart (filter f rs).
Proof.
  induction rs as [|r rs IH]; simpl; [trivial|].
  intros [Hr Hrs]. destruct (f r); simpl; [|now apply IH].
  split; [|now apply IH].
  intros r' Hin. apply filter_In in Hin as [Hin _]. now apply Hr.
Qed.

Lemma dedup_apart (rs : list row) : rows_apart (dedup rs).
Proof.
  induction rs as [|r rs IH]; simpl; [trivial|]. split.
  - intros r' Hin. apply filter_In in Hin as [_ H].
    now apply negb_true_iff in H.
  - now apply rows_apart_filter.
Qed.

Lemma filter_all {A : Type} (f : A -> bool) (l : list A) :
  (forall x, In x l -> f x = true) -> filter f l = l.
Proof.
  induction l as [|x l IH]; simpl; intros H; [reflexivity|].
  rewrite (H x (or_introl eq_refl)), IH; [reflexivity|].
  intros y Hy. apply H. now right.
Qed.

(** Rows of which no two are alike are left as they are. *)
Lemma dedup_fixed (rs : list row) : rows_apart rs -> dedup rs = rs.
Proof.
  induction rs as [|r rs IH]; simpl; [reflexivity|].
  intros [Hr Hrs]. rewrite (IH Hrs). f_equal.
  apply filter_all. intros r' Hin. now rewrite (Hr r' Hin).
Qed.

Lemma dedup_idem (rs : list row) : dedup (dedup rs) = dedup rs.
Proof. apply dedup_fixed, dedup_apart. Qed.

Lemma dedup_In (rs : list row) (r : row) : In r (dedup rs) -> In r rs.
Proof.
  induction rs as [|h rs IH]; simpl; [trivial|].
  intros [->|Hin]; [now left|]. right.
  apply filter_In in Hin as [Hin _]. now apply IH.
Qed.

Lemma map_fixed {A : Type} (f : A -> A) (l : list A) :
  (forall x, In x l -> f x = x) -> map f l = l.
Proof.
  induction l as [|x l IH]; simpl; intros H; [reflexivity|].
  rewrite (H x (or_introl eq_refl)), IH; [reflexivity|].
  intros y Hy. apply H. now right.
Qed.

(** *** Numbering the rows *)

Lemma number_rows_length (k : Z) (rs : list row) :
  length (number_rows k rs) = length rs.
Proof.
  revert k; induction rs as [|r rs IH]; intros k; simpl; auto.
Qed.

Lemma number_rows_In (k : Z) (rs : list row) (x : row) :
  In x (number_rows k rs) ->
  exists j r, x = Scalar (SNum j) :: r /\ (k <= j)%Z.
Proof.
  revert k; induction rs as [|r rs IH]; intros k; simpl; [intros []|].
  intros [<-|Hin].
  - exists k, r. split; [reflexivity|lia].
  - destruct (IH _ Hin) as (j & r' & -> & Hj). exists j, r'. split; [reflexivity|lia].
Qed.

Lemma number_rows_apart (k : Z) (rs : list row) :
  rows_apart (number_rows k rs).
Proof.
  revert k; induction rs as [|r rs IH]; intros k; simpl; [trivial|].
  split; [|apply IH].
  intros r' Hin. destruct (number_rows_In _ _ _ Hin) as (j & x & -> & Hj).
  cbn [row_same cell_same]. unfold scalar_same. cbn [is_na scalar_eqb andb orb].
  assert ((k =? j)%Z = false) as -> by (apply Z.eqb_neq; lia).
  reflexivity.
Qed.


End RowFacts.

(** ** Columns: labels, positions, dtypes *)

Section ColumnFacts.
Import Py Frame Clean Flatten Notions.

Lemma positions_shift (n : string) (cols : list (string * dtype)) (k : nat) :
  positions n cols (S k) = map S (positions n cols k).
Proof.
  revert k; induction cols as [|[n0 d] cols IH]; intros k; simpl; [reflexivity|].
  rewrite IH. now destruct (String.eqb n0 n).
Qed.

Lemma positions_names (n : string) (cols cols' : list (string * dtype)) (k : nat) :
  map fst cols = map fst cols' -> positions n cols k = positions n cols' k.
Proof.
  revert cols' k; induction cols as [|[n0 d] cols IH];
    intros [|[n1 d1] cols'] k; simpl; try discriminate; [reflexivity|].
  intros [= <- H]. now rewrite (IH cols' (S k) H).
Qed.

Lemma positions_nth_error (n : string) (cols : list (string * dtype)) (k j : nat) :
  In j (positions n cols k) ->
  k <= j /\ exists d, nth_error cols (j - k) = Some (n, d).
Proof.
  revert k; induction cols as [|[n0 d] cols IH]; intros k; simpl; [intros []|].
  intros H.
  assert (In j (positions n cols (S k)) ->
          k <= j /\ exists d', nth_error ((n0, d) :: cols) (j - k) = Some (n, d')) as Hrec.
  { intros Hin. destruct (IH _ Hin) as (Hle & d' & E). split; [lia|].
    exists d'. replace (j - k) with (S (j - S k)) by lia. exact E. }
  destruct (String.eqb n0 n) eqn:En; [|now apply Hrec].
  destruct H as [<-|Hin]; [|now apply Hrec].
  split; [lia|]. exists d. rewrite Nat.sub_diag. simpl.
  apply String.eqb_eq in En. now subst.
Qed.

Lemma index_of_nth_error (n : string) (cols : list (string * dtype)) (i : nat) :
  index_of n cols = Some i -> exists d, nth_error cols i = Some (n, d).
Proof.
  unfold index_of. destruct (positions n cols 0) as [|j [|j' l]] eqn:E;
    try discriminate.
  intros [= ->].
  destruct (positions_nth_error n cols 0 i) as (_ & d & H).
  { rewrite E. now left. }
  exists d. now rewrite Nat.sub_0_r in H.
Qed.

(** Columns with different labels stand at different positions. *)
Lemma index_of_apart (n n' : string) (cols : list (string * dtype)) (i j : nat) :
  index_of n cols = Some i -> index_of n' cols = Some j -> n <> n' -> i <> j.
Proof.
  intros Hi Hj Hn ->.
  destruct (index_of_nth_error _ _ _ Hi) as (d & E).
  destruct (index_of_nth_error _ _ _ Hj) as (d' & E').
  congruence.
Qed.

Lemma index_of_names (n : string) (cols cols' : list (string * dtype)) :
  map fst cols = map fst cols' -> index_of n cols = index_of n cols'.
Proof. intros H. unfold index_of. now rewrite (positions_names n _ _ 0 H). Qed.

Lemma index_of_cons_other (n n0 : string) (d : dtype)
    (cols : list (string * dtype)) :
  String.eqb n0 n = false ->
  index_of n ((n0, d) :: cols) = option_map S (index_of n cols).
Proof.
  intros H. unfold index_of. simpl. rewrite H, positions_shift.
  now destruct (positions n cols 0) as [|j [|j' l]].
Qed.

Lemma positions_absent (n : string) (cols : list (string * dtype)) (k : nat) :
  existsb (String.eqb n) (map fst cols) = false -> positions n cols k = [].
Proof.
  revert k; induction cols as [|[n0 d] cols IH]; intros k; simpl; [reflexivity|].
  intros H. apply orb_false_iff in H as [H0 H].
  rewrite String.eqb_sym, H0. now apply IH.
Qed.

Lemma set_dtype_names (i : nat) (d : dtype) (cols : list (string * dtype)) :
  map fst (set_dtype i d cols) = map fst cols.
Proof.
  revert i; induction cols as [|[n0 d0] cols IH]; intros [|i]; simpl;
    try reflexivity.
  now rewrite IH.
Qed.

Lemma set_dtype_idem (i : nat) (d : dtype) (cols : list (string * dtype)) :
  set_dtype i d (set_dtype i d cols) = set_dtype i d cols.
Proof.
  revert i; induction cols as [|[n0 d0] cols IH]; intros [|i]; simpl;
    try reflexivity.
  now rewrite IH.
Qed.

Lemma set_dtype_length (i : nat) (d : dtype) (cols : list (string * dtype)) :
  length (set_dtype i d cols) = length cols.
Proof.
  rewrite <- (length_map fst), set_dtype_names. apply length_map.
Qed.

Lemma indices_cons_other (names : list string) (n0 : string) (d : dtype)
    (cols : list (string * dtype)) :
  (forall n, In n names -> String.eqb n0 n = false) ->
  indices names ((n0, d) :: cols) = option_map (map S) (indices names cols).
Proof.
  induction names as [|n names IH]; simpl; intros H; [reflexivity|].
  rewrite (index_of_cons_other n n0 d cols (H n (or_introl eq_refl))).
  rewrite IH by (intros n' Hn'; apply H; now right).
  destruct (index_of n cols); simpl; [|reflexivity].
  now destruct (indices names cols).
Qed.

(** The position of a column that is not among [names] is not among their
    positions. *)
Lemma indices_avoid (names : list string) (cols : list (string * dtype))
    (js : list nat) (n : string) (i : nat) :
  indices names cols = Some js -> index_of n cols = Some i ->
  ~ In n names -> existsb (Nat.eqb i) js = false.
Proof.
  revert js; induction names as [|n' names IH]; simpl; intros js Hjs Hi Hn.
  - now injection Hjs as <-.
  - destruct (index_of n' cols) as [j|] eqn:Ej; [|discriminate].
    destruct (indices names cols) as [js'|]; [|discriminate].
    injection Hjs as <-. simpl.
    rewrite (IH js' eq_refl Hi) by tauto.
    assert (i <> j) as Hij.
    { apply (index_of_apart n n' cols); auto. }
    apply Nat.eqb_neq in Hij. now rewrite Hij.
Qed.

Lemma existsb_absent (n : string) (names : list string) :
  ~ In n names -> existsb (String.eqb n) names = false.
Proof.
  intros H. destruct (existsb (String.eqb n) names) eqn:E; [|reflexivity].
  apply existsb_exists in E as (x & Hx & Ex). apply String.eqb_eq in Ex.
  now subst.
Qed.

Lemma positions_single (n : string) (cols : list (string * dtype)) (k : nat) :
  NoDup (map fst cols) -> In n (map fst cols) ->
  exists j, positions n cols k = [j].
Proof.
  revert k; induction cols as [|[n0 d] cols IH]; intros k Hnd Hin;
    [destruct Hin|].
  cbn [map fst] in Hnd, Hin. apply NoDup_cons_iff in Hnd as [Hn0 Hnd].
  cbn [positions]. destruct (String.eqb_spec n0 n) as [->|Hne].
  - exists k. now rewrite positions_absent by now apply existsb_absent.
  - destruct Hin as [Hin|Hin]; [contradiction|]. now apply IH.
Qed.

(** A label that occurs once is found. *)
Lemma index_of_defined (n : string) (cols : list (string * dtype)) :
  NoDup (map fst cols) -> In n (map fst cols) ->
  exists i, index_of n cols = Some i.
Proof.
  intros Hnd Hin. destruct (positions_single n cols 0 Hnd Hin) as (j & E).
  exists j. unfold index_of. now rewrite E.
Qed.

Lemma indices_defined (names : list string) (cols : list (string * dtype)) :
  NoDup (map fst cols) -> (forall n, In n names -> In n (map fst cols)) ->
  exists js, indices names cols = Some js.
Proof.
  intros Hnd. induction names as [|n names IH]; intros Hin; cbn [indices].
  - now exists [].
  - destruct (index_of_defined n cols Hnd (Hin n (or_introl eq_refl))) as (i & ->).
    destruct IH as (js & ->); [intros n' Hn'; apply Hin; now right|].
    now eexists.
Qed.

(** What the loop over the object columns does to a frame. *)
Lemma strip_cols_spec (names : list string) (t : Table) :
  strip_cols names t
  = match indices names (columns t) with
    | Some js => Some (mkTable (columns t) (map (strip_row js) (rows t)))
    | None => None
    end.
Proof.
  revert t; induction names as [|n names IH]; intros t; simpl.
  - unfold strip_row. simpl. rewrite map_id. now destruct t.
  - unfold col_index. destruct (index_of n (columns t)) as [i|]; [|reflexivity].
    rewrite IH. cbn [map_col columns rows].
    destruct (indices names (columns t)) as [js|]; [|reflexivity].
    now rewrite map_map.
Qed.

End ColumnFacts.

(** ** The regular expression that removes the parenthesised groups *)

Section ParenFacts.
Import Py Frame Clean Notions.

Lemma find_close_shorter (s rest : string) :
  find_close s = Some rest -> String.length rest < String.length s.
Proof.
  induction s as [|c s IH]; cbn [find_close String.length]; [discriminate|].
  destruct (Ascii.eqb c rparen); [intros [= ->]; lia|].
  destruct (Ascii.eqb c newline); [discriminate|].
  intros H. specialize (IH H). lia.
Qed.

(** Removing groups does not bring a closing parenthesis within reach. *)
Lemma find_close_sub (fuel : nat) (s : string) :
  find_close s = None -> find_close (re_sub_parens_fuel fuel s) = None.
Proof.
  revert s; induction fuel as [|fuel IH]; intros s; [trivial|].
  destruct s as [|c s]; [trivial|].
  cbn [find_close re_sub_parens_fuel].
  destruct (Ascii.eqb c rparen) eqn:Er; [discriminate|].
  destruct (Ascii.eqb c newline) eqn:En.
  - intros _. destruct (Ascii.eqb c lparen) eqn:El.
    + apply Ascii.eqb_eq in El. subst c. discriminate En.
    + cbn [find_close]. now rewrite Er, En.
  - intros H. rewrite H.
    destruct (Ascii.eqb c lparen); cbn [find_close]; rewrite Er, En; now apply IH.
Qed.

Lemma has_group_sub (fuel : nat) (s : string) :
  String.length s <= fuel -> has_group (re_sub_parens_fuel fuel s) = false.
Proof.
  revert s; induction fuel as [|fuel IH]; intros s Hlen.
  - destruct s; [reflexivity|simpl in Hlen; lia].
  - destruct s as [|c s]; [reflexivity|].
    cbn [String.length] in Hlen. cbn [re_sub_parens_fuel].
    destruct (Ascii.eqb c lparen) eqn:El.
    + destruct (find_close s) as [rest|] eqn:Ec.
      * apply IH. pose proof (find_close_shorter s rest Ec). lia.
      * cbn [has_group]. rewrite (find_close_sub fuel s Ec), IH by lia.
        now rewrite andb_false_r.
    + cbn [has_group]. rewrite El, IH by lia. reflexivity.
Qed.

(** After the substitution no parenthesised group is left. *)
Lemma re_sub_parens_clean (s : string) : has_group (re_sub_parens s) = false.
Proof. apply has_group_sub. apply Nat.le_refl. Qed.





End ParenFacts.

(** ** [clean_data] *)

Section CleanFacts.
Import Py Frame Clean Notions.

Variable to_datetime : string -> option Z.
Variable str_of_time : Z -> string.
Variable str_of_list : list scalar -> string.

Local Abbreviation parse := (parse_created_at to_datetime str_of_time str_of_list).
Local Abbreviation text_of := (created_at_text str_of_time str_of_list).
Local Abbreviation contacts_cleaned := (clean_contacts to_datetime str_of_time str_of_list).
Local Abbreviation cleaned := (clean_data to_datetime str_of_time str_of_list).
Local Abbreviation parsed := (is_parsed to_datetime).

(** The labels of the object columns that the contacts loop strips. *)
Local Abbreviation strip_names cols :=
  (filter (fun n => negb (String.eqb "created_at" n))
          (map fst (filter (fun c : string * dtype => dtype_eqb (snd c) object) cols))).

Lemma has_id_names (t t' : Table) :
  col_names t = col_names t' -> has_id t = has_id t'.
Proof. unfold has_id. now intros ->. Qed.

(** [clean_contacts] on a frame that is not empty, in one expression. *)
Lemma clean_contacts_unfold (t : Table) :
  empty t = false ->
  contacts_cleaned t
  = match col_index "created_at" t with
    | None => None
    | Some i =>
        let d := snd (nth i (columns t) (EmptyString, object)) in
        let cols1 := set_dtype i datetime64 (columns t) in
        match indices (strip_names cols1) cols1 with
        | None => None
        | Some js =>
            let rows2 :=
              map (fun r => strip_row js (map_nth i (parse d) r)) (rows t) in
            Some (if has_id t then mkTable cols1 (dedup rows2)
                  else mkTable (("id", int64) :: cols1) (number_rows 1 rows2))
        end
    end.
Proof.
  intros E. unfold clean_contacts, convert_created_at. rewrite E.
  destruct (col_index "created_at" t) as [i|]; [|reflexivity].
  unfold strip_object_columns. rewrite strip_cols_spec.
  unfold object_columns. cbn [columns rows].
  destruct (indices _ _) as [js|]; [|reflexivity].
  cbv zeta. rewrite map_map. f_equal.
  unfold add_id_if_missing.
  change (existsb (String.eqb "id")
            (map lower (col_names
               (mkTable (set_dtype i datetime64 (columns t))
                  (map (fun x => strip_row js
                          (map_nth i
                             (parse (snd (nth i (columns t) (EmptyString, object))))
                             x)) (rows t))))))
    with (has_id (mkTable (set_dtype i datetime64 (columns t))
                    (map (fun x => strip_row js
                            (map_nth i
                               (parse (snd (nth i (columns t) (EmptyString, object))))
                               x)) (rows t)))).
  rewrite (has_id_names _ t) by (unfold col_names; cbn [columns]; apply set_dtype_names).
  destruct (has_id t); unfold drop_duplicates, insert_id; cbn [columns rows];
    [reflexivity|].
  now rewrite (dedup_fixed _ (number_rows_apart 1 _)).
Qed.

Lemma number_rows_In_row (k : Z) (rs : list row) (x : row) :
  In x (number_rows k rs) -> exists j r, x = Scalar (SNum j) :: r /\ In r rs.
Proof.
  revert k; induction rs as [|r rs IH]; intros k; simpl; [intros []|].
  intros [<-|Hin].
  - exists k, r. split; [reflexivity|now left].
  - destruct (IH _ Hin) as (j & r' & -> & Hr). exists j, r'. split; [reflexivity|now right].
Qed.

Lemma strip_names_not_created_at (cols : list (string * dtype)) :
  ~ In "created_at" (strip_names cols).
Proof.
  intros H. apply filter_In in H as [_ H].
  now rewrite String.eqb_refl in H.
Qed.

Lemma strip_names_incl (cols : list (string * dtype)) (n : string) :
  In n (strip_names cols) -> In n (map fst cols).
Proof.
  intros H. apply filter_In in H as [H _].
  apply in_map_iff in H as (c & <- & Hc). apply filter_In in Hc as [Hc _].
  now apply in_map.
Qed.

(** The [created_at] cell of a row that went through the conversion and
    the stripping of the other columns. *)
Lemma cleaned_row_created_at (cols : list (string * dtype)) (js : list nat)
    (i : nat) (d : dtype) (r : row) :
  indices (strip_names cols) cols = Some js ->
  index_of "created_at" cols = Some i ->
  nth_error (strip_row js (map_nth i (parse d) r)) i
  = option_map (parse d) (nth_error r i).
Proof.
  intros Hjs Hi.
  rewrite strip_row_nth_error, map_nth_nth_error, Nat.eqb_refl.
  rewrite (indices_avoid _ _ _ _ _ Hjs Hi (strip_names_not_created_at cols)).
  now destruct (nth_error r i).
Qed.

Lemma parse_spec (d : dtype) (c : cell) :
  parse d c
  = match to_datetime (text_of d c) with
    | Some t => Scalar (STime t)
    | None => Scalar SNaT
    end.
Proof. reflexivity. Qed.



(** *** The frames of a cleaned data set *)

Lemma clean_data_inv (d d' : Data) :
  cleaned d = Some d' ->
  contacts_cleaned (lower_if_nonempty (contacts d)) = Some (contacts d')
  /\ clean_plain (lower_if_nonempty (entities d)) = Some (entities d')
  /\ clean_plain (lower_if_nonempty (techstacks d)) = Some (techstacks d')
  /\ clean_plain (lower_if_nonempty (customerA d)) = Some (customerA d')
  /\ clean_plain (lower_if_nonempty (customerB d)) = Some (customerB d').
Proof.
  unfold clean_data. cbn [contacts entities techstacks customerA customerB].
  destruct (contacts_cleaned _) as [c|]; [|discriminate].
  destruct (clean_plain (lower_if_nonempty (entities d))) as [e|]; [|discriminate].
  destruct (clean_plain (lower_if_nonempty (techstacks d))) as [t|]; [|discriminate].
  destruct (clean_plain (lower_if_nonempty (customerA d))) as [ca|]; [|discriminate].
  destruct (clean_plain (lower_if_nonempty (customerB d))) as [cb|]; [|discriminate].
  intros [= <-]. now repeat split.
Qed.

Lemma lower_columns_empty (t : Table) : empty (lower_columns t) = empty t.
Proof. unfold empty, lower_columns. cbn [rows columns]. now rewrite length_map. Qed.

Lemma lower_if_nonempty_empty (t : Table) : empty (lower_if_nonempty t) = empty t.
Proof.
  unfold lower_if_nonempty. destruct (empty t) eqn:E; [assumption|].
  now rewrite lower_columns_empty.
Qed.

Lemma lower_if_nonempty_rows (t : Table) : rows (lower_if_nonempty t) = rows t.
Proof. unfold lower_if_nonempty. now destruct (empty t). Qed.

Lemma has_id_lower (t : Table) : has_id (lower_if_nonempty t) = has_id t.
Proof.
  unfold lower_if_nonempty. destruct (empty t); [reflexivity|].
  unfold has_id, col_names, lower_columns. cbn [columns].
  rewrite !map_map. cbn [fst]. f_equal.
  apply map_ext. intros c. apply lower_idem.
Qed.

Lemma no_id_label (names : list string) :
  existsb (String.eqb "id") (map lower names) = false ->
  existsb (String.eqb "id") names = false.
Proof.
  induction names as [|n names IH]; cbn [existsb map]; [trivial|].
  intros H. apply orb_false_iff in H as [Hn H]. rewrite (IH H), orb_false_r.
  destruct (String.eqb_spec "id" n) as [<-|]; [|reflexivity].
  discriminate Hn.
Qed.




(** *** When the cleaning returns *)

Lemma object_columns_incl (t : Table) (n : string) :
  In n (object_columns t) -> In n (col_names t).
Proof.
  unfold object_columns, col_names. intros H.
  apply in_map_iff in H as (c & <- & Hc). apply filter_In in Hc as [Hc _].
  now apply in_map.
Qed.

Lemma clean_plain_defined (t : Table) :
  NoDup (col_names t) -> exists t', clean_plain t = Some t'.
Proof.
  intros Hnd. unfold clean_plain. destruct (empty t); [now eexists|].
  unfold strip_object_columns. rewrite strip_cols_spec.
  destruct (indices_defined
              (filter (fun n => negb false) (object_columns t)) (columns t) Hnd)
    as (js & ->); [|now eexists].
  intros n Hn. apply filter_In in Hn as [Hn _]. now apply object_columns_incl.
Qed.

Lemma clean_contacts_defined (t : Table) :
  NoDup (col_names t) -> In "created_at" (col_names t) ->
  exists t', contacts_cleaned t = Some t'.
Proof.
  intros Hnd Hin. destruct (empty t) eqn:E.
  - unfold clean_contacts. rewrite E. now eexists.
  - rewrite (clean_contacts_unfold t E). unfold col_index.
    destruct (index_of_defined "created_at" (columns t) Hnd Hin) as (i & ->).
    cbv zeta.
    destruct (indices_defined
                (strip_names (set_dtype i datetime64 (columns t)))
                (set_dtype i datetime64 (columns t))) as (js & ->).
    + now rewrite set_dtype_names.
    + apply strip_names_incl.
    + now eexists.
Qed.

Lemma lower_if_nonempty_names (t : Table) :
  empty t = false ->
  col_names (lower_if_nonempty t) = map lower (col_names t).
Proof.
  intros E. unfold lower_if_nonempty. rewrite E.
  unfold col_names, lower_columns. cbn [columns]. now rewrite !map_map.
Qed.

Lemma clean_plain_lower_defined (t : Table) :
  NoDup (map lower (col_names t)) ->
  exists t', clean_plain (lower_if_nonempty t) = Some t'.
Proof.
  intros Hnd. destruct (empty t) eqn:E.
  - unfold lower_if_nonempty, clean_plain. rewrite E, E. now eexists.
  - apply clean_plain_defined. now rewrite lower_if_nonempty_names.
Qed.

(** [clean_data] returns whenever, letter case apart, no frame has two
    columns with one label and the contacts frame, if it is not empty, has
    a [created_at] column: nothing in the cells can make it raise. *)
Lemma clean_data_defined (d : Data) :
  NoDup (map lower (col_names (contacts d))) ->
  NoDup (map lower (col_names (entities d))) ->
  NoDup (map lower (col_names (techstacks d))) ->
  NoDup (map lower (col_names (customerA d))) ->
  NoDup (map lower (col_names (customerB d))) ->
  (empty (contacts d) = false ->
   In "created_at" (map lower (col_names (contacts d)))) ->
  exists d', cleaned d = Some d'.
Proof.
  intros Hc He Ht Ha Hb Hcr. unfold clean_data.
  cbn [contacts entities techstacks customerA customerB].
  assert (exists c, contacts_cleaned (lower_if_nonempty (contacts d)) = Some c)
    as (c & ->).
  { destruct (empty (contacts d)) eqn:E.
    - unfold lower_if_nonempty, clean_contacts. rewrite E, E. now eexists.
    - apply clean_contacts_defined; rewrite lower_if_nonempty_names by assumption;
        auto. }
  destruct (clean_plain_lower_defined _ He) as (e & ->).
  destruct (clean_plain_lower_defined _ Ht) as (t & ->).
  destruct (clean_plain_lower_defined _ Ha) as (ca & ->).
  destruct (clean_plain_lower_defined _ Hb) as (cb & ->).
  now eexists.
Qed.

(** *** Cleaning twice *)

Lemma dedup_empty (rs : list row) :
  (length (dedup rs) =? 0)%nat = (length rs =? 0)%nat.
Proof. now destruct rs. Qed.

Lemma number_rows_empty (k : Z) (rs : list row) :
  (length (number_rows k rs) =? 0)%nat = (length rs =? 0)%nat.
Proof. now rewrite number_rows_length. Qed.

Lemma lower_columns_fixed (t : Table) :
  map (fun c => (lower (fst c), snd c)) (columns t) = columns t ->
  lower_columns t = t.
Proof. intros H. unfold lower_columns. rewrite H. now destruct t. Qed.

Lemma lower_columns_lowered (t : Table) :
  map (fun c => (lower (fst c), snd c)) (columns (lower_columns t))
  = columns (lower_columns t).
Proof.
  unfold lower_columns. cbn [columns]. rewrite map_map. cbn [fst snd].
  apply map_ext. intros c. now rewrite lower_idem.
Qed.

Lemma set_dtype_lowered (i : nat) (d : dtype) (cols : list (string * dtype)) :
  map (fun c => (lower (fst c), snd c)) cols = cols ->
  map (fun c => (lower (fst c), snd c)) (set_dtype i d cols) = set_dtype i d cols.
Proof.
  revert i; induction cols as [|[n0 d0] cols IH]; intros i H; [now destruct i|].
  cbn [map fst snd] in H. injection H as Hn Hc.
  destruct i as [|i]; cbn [set_dtype map fst snd].
  - f_equal; [congruence|exact Hc].
  - f_equal; [congruence|now apply IH].
Qed.

(** Cleaning a frame that [clean_plain] returned gives the same frame. *)
Lemma clean_plain_idem (t t' : Table) :
  clean_plain t = Some t' ->
  clean_plain t' = Some t'
  /\ columns t' = columns t
  /\ empty t' = empty t.
Proof.
  unfold clean_plain at 1. destruct (empty t) eqn:E.
  - intros [= <-]. unfold clean_plain. now rewrite E.
  - unfold strip_object_columns. rewrite strip_cols_spec.
    destruct (indices _ (columns t)) as [js|] eqn:Ejs; [|discriminate].
    intros [= <-]. unfold drop_duplicates. cbn [columns rows].
    assert (E' : empty (mkTable (columns t) (dedup (map (strip_row js) (rows t))))
                 = false).
    { unfold empty in *. cbn [rows columns]. now rewrite dedup_empty, length_map. }
    split; [|split; [reflexivity|assumption]].
    unfold clean_plain. rewrite E'.
    unfold strip_object_columns. rewrite strip_cols_spec.
    unfold object_columns in *. cbn [columns rows]. rewrite Ejs.
    unfold drop_duplicates. cbn [columns rows].
    rewrite map_fixed; [now rewrite dedup_idem|].
    intros x Hx. apply dedup_In in Hx. apply in_map_iff in Hx as (r & <- & _).
    apply strip_row_idem.
Qed.

Lemma lower_after_clean (t0 t' : Table) :
  empty t' = empty (lower_if_nonempty t0) ->
  (map (fun c => (lower (fst c), snd c)) (columns (lower_if_nonempty t0))
   = columns (lower_if_nonempty t0) ->
   map (fun c => (lower (fst c), snd c)) (columns t') = columns t') ->
  lower_if_nonempty t' = t'.
Proof.
  intros He Hl. unfold lower_if_nonempty at 1.
  destruct (empty t') eqn:E; [reflexivity|].
  apply lower_columns_fixed, Hl.
  rewrite lower_if_nonempty_empty in He.
  unfold lower_if_nonempty. rewrite <- He. apply lower_columns_lowered.
Qed.

Lemma clean_plain_twice (t0 t' : Table) :
  clean_plain (lower_if_nonempty t0) = Some t' ->
  clean_plain (lower_if_nonempty t') = Some t'.
Proof.
  intros H. destruct (clean_plain_idem _ _ H) as (H1 & Hc & He).
  rewrite (lower_after_clean t0 t' He); [assumption|].
  now rewrite Hc.
Qed.

Lemma parse_is_parsed (d : dtype) (c : cell) : parsed (parse d c).
Proof.
  unfold is_parsed. rewrite parse_spec.
  destruct (to_datetime (text_of d c)) as [t|] eqn:E; [|now left].
  right. now exists (text_of d c), t.
Qed.

Section Idempotence.

(** What the pandas printer and parser of timestamps are assumed to do:
    the text of a timestamp that the parser produced parses to that
    timestamp again, and the text [NaT] of a missing timestamp does not
    parse. *)
Hypothesis reparse :
  forall s t, to_datetime s = Some t ->
              to_datetime (strip (re_sub_parens (str_of_time t))) = Some t.
Hypothesis missing_stays_missing : to_datetime "NaT" = None.

Lemma parse_fixed (d : dtype) (c : cell) : parsed c -> parse d c = c.
Proof.
  intros [->|(s & t & Hs & ->)]; rewrite parse_spec.
  - change (text_of d (Scalar SNaT)) with "NaT". now rewrite missing_stays_missing.
  - change (text_of d (Scalar (STime t)))
      with (strip (re_sub_parens (str_of_time t))).
    now rewrite (reparse s t Hs).
Qed.

(** A cleaned contacts row is left as it is by a second cleaning. *)
Lemma cleaned_row_fixed (cols : list (string * dtype)) (js : list nat)
    (i : nat) (d d' : dtype) (r : row) :
  indices (strip_names cols) cols = Some js ->
  index_of "created_at" cols = Some i ->
  strip_row js (map_nth i (parse d') (strip_row js (map_nth i (parse d) r)))
  = strip_row js (map_nth i (parse d) r).
Proof.
  intros Hjs Hi.
  rewrite (map_nth_fixed i (parse d')); [apply strip_row_idem|].
  intros c Hc. rewrite (cleaned_row_created_at cols js i d r Hjs Hi) in Hc.
  destruct (nth_error r i) as [c0|]; [|discriminate].
  injection Hc as <-. apply parse_fixed, parse_is_parsed.
Qed.

Lemma no_id_not_stripped (t : Table) (n : string) :
  has_id t = false -> In n (map fst (columns t)) -> String.eqb "id" n = false.
Proof.
  intros Hid Hin. apply no_id_label in Hid.
  destruct (String.eqb "id" n) eqn:E; [|reflexivity].
  assert (existsb (String.eqb "id") (col_names t) = true)
    by (apply existsb_exists; now exists n).
  congruence.
Qed.

(** Cleaning a frame that [clean_contacts] returned gives the same
    frame. *)
Lemma clean_contacts_idem (t t' : Table) :
  contacts_cleaned t = Some t' ->
  contacts_cleaned t' = Some t'
  /\ empty t' = empty t
  /\ (map (fun c => (lower (fst c), snd c)) (columns t) = columns t ->
      map (fun c => (lower (fst c), snd c)) (columns t') = columns t').
Proof.
  intros H. destruct (empty t) eqn:E.
  - unfold clean_contacts in H. rewrite E in H. injection H as <-.
    unfold clean_contacts. now rewrite E.
  - rewrite (clean_contacts_unfold t E) in H.
    destruct (col_index "created_at" t) as [i|] eqn:Ei; [|discriminate].
    cbv zeta in H.
    destruct (indices (strip_names (set_dtype i datetime64 (columns t)))
                (set_dtype i datetime64 (columns t))) as [js|] eqn:Ejs;
      [|discriminate].
    injection H as H.
    assert (Hi1 : index_of "created_at" (set_dtype i datetime64 (columns t)) = Some i).
    { rewrite (index_of_names _ _ (columns t)); [exact Ei|apply set_dtype_names]. }
    assert (Hrows : (length (rows t) =? 0)%nat = false
                    /\ (length (columns t) =? 0)%nat = false).
    { unfold empty in E. now apply orb_false_iff in E. }
    destruct Hrows as [Hr Hc].
    destruct (has_id t) eqn:Hid; subst t'.
    + (* the source has an [id] column *)
      match goal with |- contacts_cleaned ?T = _ /\ _ => set (t1 := T) end.
      assert (E1 : empty t1 = false).
      { unfold empty, t1. cbn [rows columns].
        now rewrite dedup_empty, length_map, set_dtype_length, Hr, Hc. }
      split; [|split; [exact E1|intros Hl; now apply set_dtype_lowered]].
      rewrite (clean_contacts_unfold t1 E1).
      rewrite (has_id_names t1 t)
        by (unfold col_names, t1; cbn [columns]; apply set_dtype_names).
      rewrite Hid. unfold col_index, t1. cbn [columns rows].
      rewrite Hi1. cbv zeta. rewrite set_dtype_idem, Ejs.
      f_equal. f_equal.
      rewrite map_fixed; [apply dedup_idem|].
      intros x Hx. apply dedup_In in Hx. apply in_map_iff in Hx as (r & <- & _).
      now apply (cleaned_row_fixed (set_dtype i datetime64 (columns t))).
    + (* the identifiers were made *)
      match goal with |- contacts_cleaned ?T = _ /\ _ => set (t1 := T) end.
      assert (E1 : empty t1 = false).
      { unfold empty, t1. cbn [rows columns length].
        now rewrite number_rows_empty, length_map, Hr. }
      split; [|split; [exact E1|]].
      2:{ intros Hl. unfold t1. cbn [columns map fst snd].
          change (lower "id") with "id". f_equal. now apply set_dtype_lowered. }
      rewrite (clean_contacts_unfold t1 E1).
      assert (Hid1 : has_id t1 = true) by reflexivity.
      rewrite Hid1. unfold col_index, t1. cbn [columns rows].
      rewrite index_of_cons_other by reflexivity. rewrite Hi1.
      cbn [option_map]. cbv zeta. cbn [set_dtype]. rewrite set_dtype_idem.
      cbn [filter snd dtype_eqb].
      rewrite indices_cons_other.
      2:{ intros n Hn. apply (no_id_not_stripped t n Hid).
          apply strip_names_incl in Hn. now rewrite set_dtype_names in Hn. }
      rewrite Ejs. cbn [option_map].
      f_equal. f_equal.
      rewrite map_fixed; [apply dedup_fixed, number_rows_apart|].
      intros x Hx. apply number_rows_In_row in Hx as (j & y & -> & Hy).
      apply in_map_iff in Hy as (r & <- & _).
      cbn [map_nth]. rewrite strip_row_cons. f_equal.
      now apply (cleaned_row_fixed (set_dtype i datetime64 (columns t))).
Qed.

Lemma clean_contacts_twice (t0 t' : Table) :
  contacts_cleaned (lower_if_nonempty t0) = Some t' ->
  contacts_cleaned (lower_if_nonempty t') = Some t'.
Proof.
  intros H. destruct (clean_contacts_idem _ _ H) as (H1 & He & Hl).
  now rewrite (lower_after_clean t0 t' He Hl).
Qed.

(** C5.  Normalization is idempotent: the data set that [clean_data]
    returns is returned unchanged by [clean_data], for every input data
    set on which it returns.  The timestamps are taken to print and parse
    as the two assumptions of this section say. *)
Theorem clean_data_idempotent (d d1 : Data) :
  cleaned d = Some d1 -> cleaned d1 = Some d1.
Proof.
  intros H. apply clean_data_inv in H as (Hc & He & Ht & Ha & Hb).
  unfold clean_data. cbn [contacts entities techstacks customerA customerB].
  rewrite (clean_contacts_twice _ _ Hc), (clean_plain_twice _ _ He),
    (clean_plain_twice _ _ Ht), (clean_plain_twice _ _ Ha),
    (clean_plain_twice _ _ Hb).
  now destruct d1.
Qed.

End Idempotence.

End CleanFacts.

Section CleanExamples.
Import Py Frame Clean Notions Samples.

Lemma parse_one_date_reparse (s : string) (t : Z) :
  parse_one_date s = Some t ->
  parse_one_date (strip (re_sub_parens (print_one_date t))) = Some t.
Proof.
  unfold parse_one_date. destruct (String.eqb s "2024-01-01 00:00:00");
    [|discriminate].
  now intros [= <-].
Qed.

Lemma clean_data_idempotent_witness :
  exists d1,
    clean_data parse_one_date print_one_date print_list raw = Some d1
    /\ clean_data parse_one_date print_one_date print_list d1 = Some d1.
Proof.
  eexists. split; [vm_compute; reflexivity|].
  apply (clean_data_idempotent parse_one_date print_one_date print_list
           parse_one_date_reparse eq_refl raw).
  vm_compute. reflexivity.
Defined.




(** A time-zone annotation in parentheses is not part of the text that
    is parsed. *)
Example created_at_text_sample :
  created_at_text print_one_date print_list object
    (str "Mon Jan 01 2024 00:00:00 GMT+0000 (Coordinated Universal Time)")
  = "Mon Jan 01 2024 00:00:00 GMT+0000".
Proof. vm_compute. reflexivity. Qed.

End CleanExamples.

(** ** The materialized view *)

Section ViewFacts.
Import Frame Clean View Samples.

Lemma left_matches_inhabited (key : cell) (ri : nat) (right : list row) :
  exists r, In r (left_matches key ri right).
Proof.
  unfold left_matches.
  destruct (filter (fun r => sql_eq key (get ri r)) right) as [|r ms].
  - exists None. now left.
  - exists (Some r). now left.
Qed.


(** The rows of the [FROM] clause. *)
Lemma in_from_clause (B : Base) (T : Tags) (db : Data) (j : Joined) :
  In j (from_clause B T db) <->
  In (jc j) (rows (contacts db))
  /\ In (je j) (rows (entities db))
  /\ sql_eq (get (c_place B) (jc j)) (get (e_place B) (je j)) = true
  /\ In (jt j) (left_matches (get (e_place B) (je j)) (t_place T)
                  (rows (techstacks db)))
  /\ In (ja j) (left_matches (get (e_place B) (je j)) (a_place B)
                  (rows (customerA db)))
  /\ In (jb j) (left_matches (get (e_place B) (je j)) (b_place B)
                  (rows (customerB db))).
Proof.
  unfold from_clause. rewrite in_flat_map. split.
  - intros (c & Hc & H). apply in_flat_map in H as (e & He & H).
    destruct (sql_eq (get (c_place B) c) (get (e_place B) e)) eqn:E; [|destruct H].
    apply in_flat_map in H as (t & Ht & H).
    apply in_flat_map in H as (a & Ha & H).
    apply in_map_iff in H as (b & <- & Hb). now cbn.
  - intros (Hc & He & E & Ht & Ha & Hb).
    exists (jc j). split; [assumption|].
    apply in_flat_map. exists (je j). split; [assumption|]. rewrite E.
    apply in_flat_map. exists (jt j). split; [assumption|].
    apply in_flat_map. exists (ja j). split; [assumption|].
    apply in_map_iff. exists (jb j). split; [now destruct j|assumption].
Qed.

(** The keys of the groups do not depend on the tags. *)
Lemma group_keys_incl (B : Base) (T T' : Tags) (db db' : Data) :
  contacts db' = contacts db -> entities db' = entities db ->
  customerA db' = customerA db -> customerB db' = customerB db ->
  incl (groups B (from_clause B T db)) (groups B (from_clause B T' db')).
Proof.
  intros Hc He Ha Hb k Hk. unfold groups in *.
  apply nodup_In in Hk. apply nodup_In.
  apply in_map_iff in Hk as (j & <- & Hj).
  apply in_from_clause in Hj as (H1 & H2 & H3 & _ & H5 & H6).
  destruct (left_matches_inhabited (get (e_place B) (je j)) (t_place T')
              (rows (techstacks db'))) as (t' & Ht').
  apply in_map_iff. exists (mkJoined (jc j) (je j) t' (ja j) (jb j)).
  split; [reflexivity|].
  apply in_from_clause. cbn [jc je jt ja jb].
  rewrite Hc, He, Ha, Hb. now repeat split.
Qed.

(** X24.  The number of rows of the view does not depend on the tags: it
    is the same for every tag table with which the statement succeeds,
    whatever the number of tag rows of a place. *)
Lemma view_rows_ignore_tags (db : Data) (ts : Table) (v v' : Table) :
  create_materialized_view db = Some v ->
  create_materialized_view
    (mkData (contacts db) (entities db) ts (customerA db) (customerB db))
  = Some v' ->
  nrows v' = nrows v.
Proof.
  unfold create_materialized_view.
  change (base_layout (mkData (contacts db) (entities db) ts (customerA db)
                         (customerB db)))
    with (base_layout db).
  destruct (base_layout db) as [B|]; [|discriminate]. cbn [bind].
  destruct (tags_layout B db) as [T|]; [|discriminate].
  destruct (tags_layout B _) as [T'|]; [|discriminate]. cbn [bind].
  intros [= <-] [= <-]. unfold nrows. cbn [rows]. rewrite !length_map.
  apply Nat.le_antisymm; apply NoDup_incl_length;
    try apply NoDup_nodup; now apply group_keys_incl.
Qed.


(** The view of the sample: the contact of place 99, which has no entity,
    has no row; the three tags of place 10 are one text. *)
Example view_sample :
  match create_materialized_view cleaned with
  | Some v => map (fun r => (get 0 r, get 7 r, get 10 r)) (rows v)
  | None => []
  end
  = [(num 1, str "react node python",
      str "ann@gmail.com senior engineer react node python");
     (num 2, str "", str "bob@example.org manager ")].
Proof. vm_compute. reflexivity. Qed.

(** The inner join of the view drops a contact whose place has no
    entity. *)
Example view_drops_unmatched_contact :
  exists v, create_materialized_view cleaned = Some v
            /\ nrows v = 2 /\ nrows (contacts cleaned) = 3.
Proof. eexists. repeat split; vm_compute; reflexivity. Qed.

End ViewFacts.

(* ===================================================================== *)
(** * Part III. Further properties                                        *)
(* ===================================================================== *)

(** ** The other branches of the translator *)

Section TranslatorBranches.
Import Py Translator Statements.





























(** X8.  Every string that the translator returns, the structured errors
    included, begins with [SELECT] and a space: whatever the input is,
    what goes to the executor is a SELECT statement at its start. *)
Theorem statements_are_selects (q s : string) :
  parse_custom_query q = Return (PyStr s) -> startswith s "SELECT " = true.
Proof.
  unfold parse_custom_query.
  destruct (startswith (lower q) "title:");
    [destruct (after_colon q); [intros [= <-]; reflexivity|discriminate]|].
  destruct (startswith (lower q) "emails:");
    [destruct (after_colon q); [intros [= <-]; reflexivity|discriminate]|].
  destruct (startswith (lower q) "range:").
  { unfold parse_range.
    destruct (split _) as [|a [|b [|c [|d l]]]]; try (intros [= <-]; reflexivity).
    destruct (re_match_range b) as [[op v]|]; [|discriminate].
    intros [= <-]; reflexivity. }
  destruct (startswith (lower q) "filter:").
  { unfold parse_filter, parse_filter_body.
    destruct (split _) as [|a [|b [|c [|d l]]]]; try (intros [= <-]; reflexivity).
    destruct (startswith c ">="); [intros [= <-]; reflexivity|].
    destruct (startswith c ">"); [intros [= <-]; reflexivity|].
    destruct (startswith c "<="); [intros [= <-]; reflexivity|].
    destruct (startswith c "<"); intros [= <-]; reflexivity. }
  destruct (startswith (lower q) "crm:").
  { unfold parse_crm. destruct (after_colon q); [|discriminate].
    destruct (String.eqb _ "a"); [intros [= <-]; reflexivity|].
    destruct (String.eqb _ "b"); [intros [= <-]; reflexivity|].
    destruct (String.eqb _ "all"); intros [= <-]; reflexivity. }
  destruct (contains colon q); [|intros [= <-]; reflexivity].
  destruct (split_colon q) as [|a [|b [|c l]]]; try discriminate.
  intros [= <-]; reflexivity.
Qed.

Lemma statements_are_selects_witness :
  parse_custom_query "filter: gmail react"
  = Return (PyStr "SELECT 'Invalid filter query format' AS error;")
  /\ startswith "SELECT 'Invalid filter query format' AS error;" "SELECT " = true.
Proof.
  split; [reflexivity|].
  exact (statements_are_selects "filter: gmail react" _ eq_refl).
Defined.

End TranslatorBranches.

(** ** The interactive loop as a whole *)

Section LoopFacts.
Import Py Translator Statements Interactive Session.

Variables DB Row : Type.
Variable execute : DB -> string -> DB * (string + list Row).
Variable show_row : Row -> string.
Variable text_none_error : string.

Lemma is_shorthand_colon (u : string) : is_shorthand u = contains colon u.
Proof.
  unfold is_shorthand. destruct (contains colon u) eqn:E.
  - now rewrite !orb_true_r.
  - now rewrite (no_colon_no_prefix u "title:" E eq_refl),
      (no_colon_no_prefix u "emails:" E eq_refl),
      (no_colon_no_prefix u "range:" E eq_refl),
      (no_colon_no_prefix u "filter:" E eq_refl),
      (no_colon_no_prefix u "crm:" E eq_refl).
Qed.

(** X9.  The test that sends an input through the translator holds
    exactly of the inputs that have a colon: its five prefix tests add
    nothing.  So the statement that the loop executes is the translation
    of the input when the input has a colon anywhere, SQL text with a
    colon included, and the input itself otherwise. *)
Theorem colon_decides_translation (u : string) :
  is_shorthand u = contains colon u
  /\ fst (choose_query u)
     = if contains colon u then parse_custom_query u else Return (PyStr u).
Proof.
  split; [apply is_shorthand_colon|].
  unfold choose_query. rewrite is_shorthand_colon.
  destruct (contains colon u); [|reflexivity].
  destruct (parse_custom_query_returns u) as (v & ->). reflexivity.
Qed.

Lemma choose_query_returns (u : string) :
  exists v out, choose_query u = (Return v, out).
Proof.
  unfold choose_query. destruct (is_shorthand u).
  - destruct (parse_custom_query_returns u) as (v & ->). now eexists _, _.
  - now eexists _, _.
Qed.

(** One turn of the loop on a line that does not end it. *)
Lemma repl_step (db : DB) (line : string) (inputs : list string) :
  is_exit line = false ->
  exists v out,
    choose_query (strip line) = (Return v, out)
    /\ repl DB Row execute show_row text_none_error db (line :: inputs)
       = let (db1, out1) := run_query DB Row execute show_row text_none_error db v in
         let '(db2, out2, st) := repl DB Row execute show_row text_none_error db1 inputs in
         (db2, (out ++ out1 ++ out2)%list, st).
Proof.
  intros H. unfold is_exit in H. apply orb_false_iff in H as [He Hq].
  destruct (choose_query_returns (strip line)) as (v & out & E).
  exists v, out. split; [exact E|]. now apply repl_turn.
Qed.

Lemma repl_exit (db : DB) (line : string) (inputs : list string) :
  is_exit line = true ->
  repl DB Row execute show_row text_none_error db (line :: inputs)
  = (db, ["Exiting PostgreSQL mode."], Exited).
Proof. intros H. unfold is_exit in H. cbn [repl]. now rewrite H. Qed.


(** X11.  The lines that follow the first [exit] or [quit] are never
    read: the loop does the same, to the database and on the screen,
    whatever comes after that line. *)
Theorem repl_stops_at_exit (db : DB) (before after : list string) (line : string) :
  is_exit line = true ->
  repl DB Row execute show_row text_none_error db (before ++ line :: after)
  = repl DB Row execute show_row text_none_error db (before ++ [line]).
Proof.
  intros H. revert db; induction before as [|l before IH]; intros db.
  - cbn [app]. now rewrite !repl_exit.
  - cbn [app]. destruct (is_exit l) eqn:E.
    + now rewrite !repl_exit.
    + destruct (repl_step db l (before ++ line :: after) E) as (v & out & Hc & ->).
      destruct (repl_step db l (before ++ [line]) E) as (v' & out' & Hc' & ->).
      rewrite Hc in Hc'. injection Hc' as <- <-.
      destruct (run_query DB Row execute show_row text_none_error db v) as [db1 out1].
      now rewrite IH.
Qed.

End LoopFacts.

Lemma repl_stops_at_exit_witness :
  Session.is_exit " Quit " = true
  /\ Interactive.repl unit nat Samples.twelve_rows Interactive.str_of_nat "error" tt
       ["title: engineer"; " Quit "; "crm:a"]
     = Interactive.repl unit nat Samples.twelve_rows Interactive.str_of_nat "error" tt
         ["title: engineer"; " Quit "].
Proof.
  split; [reflexivity|].
  exact (repl_stops_at_exit unit nat Samples.twelve_rows Interactive.str_of_nat
           "error" tt ["title: engineer"] ["crm:a"] " Quit " eq_refl).
Defined.

Section LoopLog.
Import Py Translator Statements Interactive Session.

Variables DB Row : Type.
Variable execute : DB -> string -> DB * (string + list Row).
Variable show_row : Row -> string.
Variable text_none_error : string.


End LoopLog.

(** ** More on the cleaning step *)

Section ParenFixed.
Import Py Frame Clean Notions.

Lemma re_sub_parens_fuel_fixed (fuel : nat) (s : string) :
  has_group s = false -> re_sub_parens_fuel fuel s = s.
Proof.
  revert s; induction fuel as [|fuel IH]; intros s H; [reflexivity|].
  destruct s as [|c s]; [reflexivity|].
  cbn [has_group] in H. apply orb_false_iff in H as [Hc Hs].
  cbn [re_sub_parens_fuel].
  destruct (Ascii.eqb c lparen).
  - destruct (find_close s); [discriminate|]. now rewrite (IH s Hs).
  - now rewrite (IH s Hs).
Qed.

(** X13.  The removal of parenthesised groups from the [created_at] text
    leaves a text unchanged exactly when the text holds no such group,
    an opening parenthesis with a closing one later on its line; and it
    removes all there is to remove in one pass, so doing it twice is
    doing it once. *)
Theorem re_sub_parens_fixed (s : string) :
  (has_group s = false <-> re_sub_parens s = s)
  /\ re_sub_parens (re_sub_parens s) = re_sub_parens s.
Proof.
  assert (K : forall x, has_group x = false -> re_sub_parens x = x)
    by (intros x; apply re_sub_parens_fuel_fixed).
  split; [split|].
  - apply K.
  - intros <-. apply re_sub_parens_clean.
  - apply K, re_sub_parens_clean.
Qed.

End ParenFixed.

Section CleanMore.
Import Py Frame Clean Notions.

Variable to_datetime : string -> option Z.
Variable str_of_time : Z -> string.
Variable str_of_list : list scalar -> string.

Local Abbreviation contacts_cleaned := (clean_contacts to_datetime str_of_time str_of_list).
Local Abbreviation cleaned := (clean_data to_datetime str_of_time str_of_list).

(** [clean_plain] on a frame that is not empty, in one expression. *)
Lemma clean_plain_unfold (t : Table) :
  empty t = false ->
  clean_plain t
  = match indices (object_columns t) (columns t) with
    | Some js => Some (mkTable (columns t) (dedup (map (strip_row js) (rows t))))
    | None => None
    end.
Proof.
  intros E. unfold clean_plain, strip_object_columns. rewrite E, strip_cols_spec.
  rewrite filter_all by reflexivity.
  now destruct (indices _ _).
Qed.

(** The four frames that [clean_data] cleans in the same way. *)
Lemma clean_data_plain (d d' : Data) (frame : Data -> Table) :
  cleaned d = Some d' ->
  In frame [entities; techstacks; customerA; customerB] ->
  clean_plain (lower_if_nonempty (frame d)) = Some (frame d').
Proof.
  intros H Hf. apply clean_data_inv in H as (_ & He & Ht & Ha & Hb).
  destruct Hf as [<-|[<-|[<-|[<-|[]]]]]; assumption.
Qed.

Lemma dedup_length (rs : list row) : length (dedup rs) <= length rs.
Proof.
  induction rs as [|r rs IH]; cbn [dedup length]; [lia|].
  pose proof (filter_length_le (fun r' => negb (row_same r r')) (dedup rs)). lia.
Qed.

Lemma clean_plain_rows (t t' : Table) :
  clean_plain t = Some t' ->
  nrows t' <= nrows t /\ (empty t = false -> rows_apart (rows t')).
Proof.
  intros H. destruct (empty t) eqn:E.
  - unfold clean_plain in H. rewrite E in H. injection H as <-.
    split; [lia|discriminate].
  - rewrite (clean_plain_unfold t E) in H.
    destruct (indices _ _) as [js|]; [|discriminate]. injection H as <-.
    unfold nrows. cbn [rows]. split.
    + rewrite <- (length_map (strip_row js) (rows t)). apply dedup_length.
    + intros _. apply dedup_apart.
Qed.

Lemma clean_contacts_rows (t t' : Table) :
  contacts_cleaned t = Some t' ->
  nrows t' <= nrows t
  /\ (empty t = false -> rows_apart (rows t'))
  /\ (empty t = false -> has_id t = false -> nrows t' = nrows t)
  /\ empty t' = empty t.
Proof.
  intros H. destruct (empty t) eqn:E.
  - unfold clean_contacts in H. rewrite E in H. injection H as <-.
    repeat split; try discriminate; [lia|assumption].
  - rewrite (clean_contacts_unfold _ _ _ t E) in H.
    destruct (col_index "created_at" t) as [i|]; [|discriminate].
    cbv zeta in H. destruct (indices _ _) as [js|]; [|discriminate].
    injection H as <-. unfold nrows, empty in *.
    destruct (has_id t); cbn [rows columns].
    + repeat split.
      * etransitivity; [apply dedup_length|]. now rewrite length_map.
      * intros _. apply dedup_apart.
      * discriminate.
      * now rewrite dedup_empty, length_map, set_dtype_length.
    + rewrite number_rows_length, length_map.
      split; [lia|]. split; [intros _; apply number_rows_apart|].
      split; [reflexivity|].
      apply orb_false_iff in E as [-> _]. reflexivity.
Qed.



(** X14.  When the contacts frame is not empty and none of its labels is
    [created_at] in any letter case, [clean_data] raises (the [KeyError]
    of [contacts['created_at']]) whatever the other frames are. *)
Theorem missing_created_at_raises (d : Data) :
  empty (contacts d) = false ->
  ~ In "created_at" (map lower (col_names (contacts d))) ->
  cleaned d = None.
Proof.
  intros E Hno. unfold clean_data.
  cbn [contacts entities techstacks customerA customerB].
  assert (E' := E). rewrite <- lower_if_nonempty_empty in E'.
  rewrite (clean_contacts_unfold _ _ _ _ E').
  unfold col_index, index_of.
  rewrite positions_absent; [reflexivity|].
  apply existsb_absent.
  change (map fst (columns (lower_if_nonempty (contacts d))))
    with (col_names (lower_if_nonempty (contacts d))).
  now rewrite lower_if_nonempty_names.
Qed.


(** X16.  [clean_data] never adds a row, and a frame is empty after it
    exactly when it was empty before.  When the identifiers of the
    contacts are generated, no contact row is dropped at all: the rows
    are numbered before the duplicates are dropped, so rows that repeat
    each other in the source all stay, each under its own [id]. *)
Theorem cleaned_row_counts (d d' : Data) :
  cleaned d = Some d' ->
  nrows (contacts d') <= nrows (contacts d)
  /\ empty (contacts d') = empty (contacts d)
  /\ (empty (contacts d) = false -> has_id (contacts d) = false ->
      nrows (contacts d') = nrows (contacts d))
  /\ forall frame, In frame [entities; techstacks; customerA; customerB] ->
       nrows (frame d') <= nrows (frame d)
       /\ empty (frame d') = empty (frame d).
Proof.
  intros H. repeat split.
  - apply clean_data_inv in H as (H & _).
    apply clean_contacts_rows in H as (H & _).
    unfold nrows in *. now rewrite lower_if_nonempty_rows in H.
  - apply clean_data_inv in H as (H & _).
    apply clean_contacts_rows in H as (_ & _ & _ & H).
    now rewrite lower_if_nonempty_empty in H.
  - intros E Hid. apply clean_data_inv in H as (H & _).
    apply clean_contacts_rows in H as (_ & _ & H & _).
    unfold nrows in *. rewrite lower_if_nonempty_rows in H. apply H.
    + now rewrite lower_if_nonempty_empty.
    + now rewrite has_id_lower.
  - apply (clean_data_plain d d' frame H) in H0.
    apply clean_plain_rows in H0 as [H0 _].
    unfold nrows in *. now rewrite lower_if_nonempty_rows in H0.
  - apply (clean_data_plain d d' frame H) in H0.
    apply clean_plain_idem in H0 as (_ & _ & H0).
    now rewrite lower_if_nonempty_empty in H0.
Qed.

(** X17.  After [clean_data] no frame that was not empty holds two rows
    that are alike in every cell (missing values being alike): this is
    what [drop_duplicates] leaves. *)
Theorem cleaned_rows_distinct (d d' : Data) :
  cleaned d = Some d' ->
  (empty (contacts d) = false -> rows_apart (rows (contacts d')))
  /\ forall frame, In frame [entities; techstacks; customerA; customerB] ->
       empty (frame d) = false -> rows_apart (rows (frame d')).
Proof.
  intros H. split.
  - intros E. apply clean_data_inv in H as (H & _).
    apply clean_contacts_rows in H as (_ & H & _).
    apply H. now rewrite lower_if_nonempty_empty.
  - intros frame Hf E. apply (clean_data_plain d d' frame H) in Hf.
    apply clean_plain_rows in Hf as [_ Hf]. apply Hf.
    now rewrite lower_if_nonempty_empty.
Qed.















End CleanMore.

Section CleanMoreExamples.
Import Py Frame Clean Notions Samples Cases.

Lemma missing_created_at_raises_witness :
  empty (contacts no_created_at) = false
  /\ clean_data parse_one_date print_one_date print_list no_created_at = None.
Proof.
  split; [reflexivity|].
  apply (missing_created_at_raises parse_one_date print_one_date print_list
           no_created_at eq_refl).
  vm_compute. intuition discriminate.
Defined.


Lemma cleaned_row_counts_witness :
  exists d',
    clean_data parse_one_date print_one_date print_list raw_padded = Some d'
    /\ nrows (contacts d') = 3
    /\ nrows (entities d') <= 3.
Proof.
  eexists. split; [vm_compute; reflexivity|]. split.
  - exact (proj1 (proj2 (proj2 (cleaned_row_counts parse_one_date print_one_date
                                   print_list raw_padded _ eq_refl)))
             eq_refl eq_refl).
  - exact (proj1 (proj2 (proj2 (proj2 (cleaned_row_counts parse_one_date
                                          print_one_date print_list raw_padded _
                                          eq_refl)))
                    entities (or_introl eq_refl))).
Defined.

Lemma cleaned_rows_distinct_witness :
  exists d',
    clean_data parse_one_date print_one_date print_list raw_padded = Some d'
    /\ rows_apart (rows (entities d')).
Proof.
  eexists. split; [vm_compute; reflexivity|].
  exact (proj2 (cleaned_rows_distinct parse_one_date print_one_date print_list
                  raw_padded _ eq_refl)
           entities (or_introl eq_refl) eq_refl).
Defined.



End CleanMoreExamples.

(** ** More on the flattening step *)

Section FlattenMore.
Import Frame Clean Flatten Notions Shapes.

Lemma extends_refl (rs : list row) : extends rs rs.
Proof.
  split.
  - intros a Ha. exists []. now rewrite app_nil_r.
  - intros b Hb. exists b, []. now rewrite app_nil_r.
Qed.

Lemma extends_trans (r1 r2 r3 : list row) :
  extends r1 r2 -> extends r2 r3 -> extends r1 r3.
Proof.
  intros [H12 H21] [H23 H32]. split.
  - intros a Ha. destruct (H12 a Ha) as (x & Hx).
    destruct (H23 _ Hx) as (y & Hy). exists (x ++ y)%list. now rewrite app_assoc.
  - intros c Hc. destruct (H32 c Hc) as (b & y & Hb & ->).
    destruct (H21 b Hb) as (a & x & Ha & ->).
    exists a, (x ++ y)%list. now rewrite app_assoc.
Qed.

(** A left join makes at least one row of every left row, and each of
    them begins with the left row. *)
Lemma join_row_extends (li ri : nat) (right : Table) (lr : row) :
  (exists rest, In (lr ++ rest)%list (join_row li ri right lr))
  /\ (forall x, In x (join_row li ri right lr) -> exists rest, x = (lr ++ rest)%list)
  /\ 1 <= length (join_row li ri right lr).
Proof.
  unfold join_row. destruct (matches li ri (rows right) lr) as [|rr ms].
  - split; [|split].
    + eexists. now left.
    + intros x [<-|[]]. now eexists.
    + cbn. lia.
  - split; [|split].
    + exists (remove_nth ri rr). now left.
    + intros x Hx. apply in_map_iff in Hx as (r & <- & _). now eexists.
    + cbn. lia.
Qed.

Lemma flat_map_length_ge {A B : Type} (f : A -> list B) (l : list A) :
  (forall x, 1 <= length (f x)) -> length l <= length (flat_map f l).
Proof.
  intros H. induction l as [|x l IH]; cbn [flat_map length]; [lia|].
  rewrite length_app. specialize (H x). lia.
Qed.

Lemma merge_left_extends (left right : Table) (key : string)
    (sfx : string * string) (m : Table) :
  merge_left left right key sfx = Some m ->
  extends (rows left) (rows m) /\ nrows left <= nrows m.
Proof.
  unfold merge_left.
  destruct (col_index key left) as [li|]; [|discriminate].
  destruct (col_index key right) as [ri|]; [|discriminate].
  intros [= <-]. cbn [rows]. split; [split|].
  - intros a Ha. destruct (join_row_extends li ri right a) as ((rest & H) & _).
    exists rest. apply in_flat_map. now exists a.
  - intros b Hb. apply in_flat_map in Hb as (a & Ha & Hb).
    destruct (join_row_extends li ri right a) as (_ & H & _).
    destruct (H b Hb) as (rest & ->). now exists a, rest.
  - unfold nrows. cbn [rows]. apply flat_map_length_ge.
    intros x. apply join_row_extends.
Qed.

Lemma merge_if_nonempty_extends (merged right m : Table) :
  merge_if_nonempty merged right = Some m ->
  extends (rows merged) (rows m) /\ nrows merged <= nrows m.
Proof.
  unfold merge_if_nonempty. destruct (empty right); cbn [negb].
  - intros [= <-]. split; [apply extends_refl|lia].
  - apply merge_left_extends.
Qed.

(** X20.  When contacts and entities are not empty, the flattened frame
    has at least as many rows as the contacts frame, whatever the keys
    are: a left join drops no row of its left side; it can only repeat
    one. *)
Theorem flatten_keeps_contacts (d : Data) (m : Table) :
  flatten_data d = Some m ->
  empty (contacts d) = false ->
  empty (entities d) = false ->
  nrows (contacts d) <= nrows m.
Proof.
  unfold flatten_data. intros Hf Hc He.
  rewrite Hc, He in Hf. cbn [orb] in Hf.
  destruct (merge_left (contacts d) (entities d) "place_id"
              ("_contact", "_entity")) as [m0|] eqn:E0; [|discriminate].
  destruct (add_tech_names m0 (techstacks d)) as [m1|] eqn:E1; [|discriminate].
  destruct (merge_if_nonempty m1 (customerA d)) as [m2|] eqn:E2; [|discriminate].
  apply merge_left_extends in E0 as [_ E0].
  apply add_tech_names_rows in E1 as [E1 _].
  apply merge_if_nonempty_extends in E2 as [_ E2].
  apply merge_if_nonempty_extends in Hf as [_ Hf]. lia.
Qed.

(** X21.  When contacts, entities and tags are not empty, the rows of
    the flattened frame are the contact rows, each with cells appended:
    every contact row is the front of some flattened row, and every
    flattened row begins with a contact row, cell for cell. *)
Theorem flatten_extends_contacts (d : Data) (m : Table) :
  flatten_data d = Some m ->
  empty (contacts d) = false ->
  empty (entities d) = false ->
  empty (techstacks d) = false ->
  extends (rows (contacts d)) (rows m).
Proof.
  unfold flatten_data. intros Hf Hc He Ht.
  rewrite Hc, He in Hf. cbn [orb] in Hf.
  destruct (merge_left (contacts d) (entities d) "place_id"
              ("_contact", "_entity")) as [m0|] eqn:E0; [|discriminate].
  destruct (add_tech_names m0 (techstacks d)) as [m1|] eqn:E1; [|discriminate].
  destruct (merge_if_nonempty m1 (customerA d)) as [m2|] eqn:E2; [|discriminate].
  apply merge_left_extends in E0 as [E0 _].
  apply add_tech_names_rows in E1 as [_ E1].
  destruct (E1 Ht) as (li & pi & ni & _ & _ & _ & E1').
  apply merge_if_nonempty_extends in E2 as [E2 _].
  apply merge_if_nonempty_extends in Hf as [Hf _].
  apply (extends_trans _ _ _ E0). apply (extends_trans (rows m0) (rows m1)).
  - rewrite E1'. split.
    + intros a Ha. eexists. apply in_map_iff. exists a. split; [reflexivity|assumption].
    + intros b Hb. apply in_map_iff in Hb as (a & <- & Ha).
      exists a. eexists. split; [assumption|reflexivity].
  - now apply (extends_trans _ _ _ E2).
Qed.

End FlattenMore.

Section FlattenMoreExamples.
Import Frame Clean Flatten Notions Shapes Samples.

Lemma flatten_keeps_contacts_witness :
  exists m, flatten_data two_sfdc = Some m /\ nrows (contacts two_sfdc) <= nrows m.
Proof.
  eexists. split; [vm_compute; reflexivity|].
  exact (flatten_keeps_contacts two_sfdc _ eq_refl eq_refl eq_refl).
Defined.

Lemma flatten_extends_contacts_witness :
  exists m, flatten_data cleaned = Some m /\ extends (rows contacts3) (rows m).
Proof.
  eexists. split; [vm_compute; reflexivity|].
  exact (flatten_extends_contacts cleaned _ eq_refl eq_refl eq_refl eq_refl).
Defined.

End FlattenMoreExamples.

(** ** More on the materialized view *)

Section ViewMore.
Import Py Frame Clean Flatten View Notions Shapes.

(** The columns that the join conditions and the first column of the
    view refer to. *)
Lemma base_layout_keys (db : Data) (B : Base) :
  base_layout db = Some B ->
  col_index "id" (contacts db) = Some (c_id B)
  /\ col_index "place_id" (contacts db) = Some (c_place B)
  /\ col_index "place_id" (entities db) = Some (e_place B)
  /\ col_index "place_id" (customerA db) = Some (a_place B)
  /\ col_index "place_id" (customerB db) = Some (b_place B).
Proof.
  unfold base_layout, bind, column, text_column, key_column.
  repeat lazymatch goal with
  | |- match match ?x with Some _ => _ | None => _ end with _ => _ end = _ -> _ =>
      destruct x eqn:?; [|discriminate]
  | |- match (if ?b then _ else _) with _ => _ end = _ -> _ =>
      destruct b; [|discriminate]
  | |- match ?x with Some _ => _ | None => _ end = _ -> _ =>
      destruct x eqn:?; [|discriminate]
  end.
  intros [= <-]. cbn [c_id c_place e_place a_place b_place]. now repeat split.
Qed.

Lemma view_rows (db : Data) (v : Table) :
  create_materialized_view db = Some v ->
  exists B T,
    base_layout db = Some B /\ tags_layout B db = Some T
    /\ rows v = map (fun k => select_row k
                                (agg_names T (members B (from_clause B T db) k)))
                    (groups B (from_clause B T db)).
Proof.
  unfold create_materialized_view.
  destruct (base_layout db) as [B|]; [|discriminate]. cbn [bind].
  destruct (tags_layout B db) as [T|] eqn:ET; [|discriminate]. cbn [bind].
  intros [= <-]. exists B, T. repeat split; assumption || reflexivity.
Qed.

(** X22.  The view holds the contacts that have an entity, and only
    those: every row of the view carries the [id] of a contact whose
    [place_id] equals the [place_id] of some entity, both not NULL; and
    every such contact has a row in the view under its [id].  A contact
    whose place is NULL or matches no entity has no row. *)
Theorem view_is_inner_join (db : Data) (v : Table) :
  create_materialized_view db = Some v ->
  exists ci cp ep,
    col_index "id" (contacts db) = Some ci
    /\ col_index "place_id" (contacts db) = Some cp
    /\ col_index "place_id" (entities db) = Some ep
    /\ (forall r, In r (rows v) ->
          exists c e,
            In c (rows (contacts db)) /\ In e (rows (entities db))
            /\ sql_eq (get cp c) (get ep e) = true
            /\ get 0 r = sql_value (get ci c))
    /\ (forall c e,
          In c (rows (contacts db)) -> In e (rows (entities db)) ->
          sql_eq (get cp c) (get ep e) = true ->
          exists r, In r (rows v) /\ get 0 r = sql_value (get ci c)).
Proof.
  intros H. destruct (view_rows db v H) as (B & T & HB & HT & Hrows).
  destruct (base_layout_keys db B HB) as (Hci & Hcp & Hep & _).
  exists (c_id B), (c_place B), (e_place B).
  repeat split; try assumption.
  - intros r Hr. rewrite Hrows in Hr.
    apply in_map_iff in Hr as (k & <- & Hk).
    unfold groups in Hk. apply nodup_In in Hk.
    apply in_map_iff in Hk as (j & <- & Hj).
    apply in_from_clause in Hj as (Hc & He & E & _).
    exists (jc j), (je j). now repeat split.
  - intros c e Hc He E.
    destruct (left_matches_inhabited (get (e_place B) e) (t_place T)
                (rows (techstacks db))) as (t & Ht).
    destruct (left_matches_inhabited (get (e_place B) e) (a_place B)
                (rows (customerA db))) as (a & Ha).
    destruct (left_matches_inhabited (get (e_place B) e) (b_place B)
                (rows (customerB db))) as (b & Hb).
    exists (select_row (group_key B (mkJoined c e t a b))
              (agg_names T (members B (from_clause B T db)
                              (group_key B (mkJoined c e t a b))))).
    split; [|reflexivity].
    rewrite Hrows. apply in_map_iff.
    exists (group_key B (mkJoined c e t a b)). split; [reflexivity|].
    unfold groups. apply nodup_In.
    apply in_map. apply in_from_clause. cbn [jc je jt ja jb]. now repeat split.
Qed.

(** Two values that SQL finds equal are alike for pandas. *)
Lemma sql_eq_key_match (a b : cell) : sql_eq a b = true -> key_match a b = true.
Proof.
  destruct a as [x|], b as [y|]; cbn [sql_eq key_match]; try discriminate.
  intros H. apply andb_true_iff in H as [_ H].
  unfold scalar_same. rewrite H. apply orb_true_r.
Qed.

Lemma filter_length_mono {A : Type} (f g : A -> bool) (l : list A) :
  (forall x, f x = true -> g x = true) ->
  length (filter f l) <= length (filter g l).
Proof.
  intros H. induction l as [|x l IH]; cbn [filter]; [lia|].
  destruct (f x) eqn:E.
  - rewrite (H x E). cbn [length]. lia.
  - destruct (g x); cbn [length]; lia.
Qed.

Lemma sql_matches_unique (name : string) (t : Table) (i : nat) (key : cell) :
  col_index name t = Some i -> unique_on name t = true ->
  length (filter (fun r => sql_eq key (get i r)) (rows t)) <= 1.
Proof.
  intros Hi Hu. unfold unique_on in Hu. rewrite Hi in Hu.
  etransitivity; [|apply (unique_keys_one_match i (rows t) key Hu)].
  apply filter_length_mono. intros r. apply sql_eq_key_match.
Qed.

Lemma left_matches_unique (name : string) (t : Table) (i : nat) (key : cell) :
  col_index name t = Some i -> unique_on name t = true ->
  length (left_matches key i (rows t)) <= 1.
Proof.
  intros Hi Hu. pose proof (sql_matches_unique name t i key Hi Hu) as H.
  unfold left_matches.
  destruct (filter (fun r => sql_eq key (get i r)) (rows t)) as [|r ms];
    [cbn; lia|].
  now rewrite length_map.
Qed.

Lemma flat_map_length_le {A B : Type} (f : A -> list B) (l : list A) :
  (forall x, length (f x) <= 1) -> length (flat_map f l) <= length l.
Proof.
  intros H. induction l as [|x l IH]; cbn [flat_map length]; [lia|].
  rewrite length_app. specialize (H x). lia.
Qed.

Lemma flat_map_filter_length {A B : Type} (p : A -> bool) (f : A -> list B)
    (l : list A) :
  (forall x, length (f x) <= 1) ->
  length (flat_map (fun x => if p x then f x else []) l) <= length (filter p l).
Proof.
  intros H. induction l as [|x l IH]; cbn [flat_map filter length]; [lia|].
  rewrite length_app. destruct (p x); cbn [length]; [specialize (H x)|]; lia.
Qed.

Lemma nodup_length {A : Type} (dec : forall a b : A, {a = b} + {a <> b})
    (l : list A) :
  length (nodup dec l) <= length l.
Proof.
  apply NoDup_incl_length; [apply NoDup_nodup|].
  intros x Hx. now apply nodup_In in Hx.
Qed.

(** X23.  When no place is repeated in the entities and in the two
    customer mappings, the view has at most one row for each contact
    row, whatever the tags are: the tags are aggregated, and each contact
    meets one entity and one identifier of each kind at most. *)
Theorem view_rows_bounded (db : Data) (v : Table) :
  create_materialized_view db = Some v ->
  unique_on "place_id" (entities db) = true ->
  unique_on "place_id" (customerA db) = true ->
  unique_on "place_id" (customerB db) = true ->
  nrows v <= nrows (contacts db).
Proof.
  intros H Hue Hua Hub. unfold create_materialized_view in H.
  destruct (base_layout db) as [B|] eqn:HB; [|discriminate]. cbn [bind] in H.
  destruct (tags_layout B db) as [T|]; [|discriminate]. cbn [bind] in H.
  injection H as <-. unfold nrows. cbn [rows]. rewrite length_map.
  destruct (base_layout_keys db B HB) as (_ & _ & He & Ha & Hb).
  set (db0 := mkData (contacts db) (entities db)
                (mkTable (columns (techstacks db)) [])
                (customerA db) (customerB db)).
  transitivity (length (groups B (from_clause B T db0))).
  { apply NoDup_incl_length; [apply NoDup_nodup|].
    now apply group_keys_incl. }
  unfold groups. etransitivity; [apply nodup_length|]. rewrite length_map.
  unfold from_clause. cbn [contacts entities techstacks customerA customerB db0 rows].
  apply flat_map_length_le. intros c.
  etransitivity;
    [|apply (sql_matches_unique "place_id" (entities db) (e_place B)
               (get (c_place B) c) He Hue)].
  apply (flat_map_filter_length
           (fun e => sql_eq (get (c_place B) c) (get (e_place B) e))).
  intros e. cbn [left_matches filter flat_map]. rewrite app_nil_r.
  etransitivity;
    [|apply (left_matches_unique "place_id" (customerA db) (a_place B)
               (get (e_place B) e) Ha Hua)].
  apply flat_map_length_le. intros a. rewrite length_map.
  apply (left_matches_unique "place_id" (customerB db) (b_place B)
           (get (e_place B) e) Hb Hub).
Qed.

Lemma flat_map_nil {A B : Type} (f : A -> list B) (l : list A) :
  (forall x, In x l -> f x = []) -> flat_map f l = [].
Proof.
  intros H. induction l as [|x l IH]; [reflexivity|].
  cbn [flat_map]. rewrite (H x (or_introl eq_refl)), IH; [reflexivity|].
  intros y Hy. apply H. now right.
Qed.

(** X26.  When no tag row has the place of an entity, as when the tag
    table has no row, every row of the view has the empty text as its
    [tech_names], not NULL, and its [document] is the emails, a space,
    the title and a space. *)
Theorem view_without_tags (db : Data) (v : Table) (B : Base) (T : Tags) :
  create_materialized_view db = Some v ->
  base_layout db = Some B ->
  tags_layout B db = Some T ->
  (forall e t, In e (rows (entities db)) -> In t (rows (techstacks db)) ->
               sql_eq (get (e_place B) e) (get (t_place T) t) = false) ->
  forall r, In r (rows v) ->
    get 7 r = Scalar (SStr "")
    /\ get 10 r = Scalar (SStr (coalesce_text (get 1 r) ++ " "
                                ++ coalesce_text (get 2 r) ++ " ")).
Proof.
  intros H HB HT Hno r Hr.
  destruct (view_rows db v H) as (B' & T' & HB' & HT' & Hrows).
  rewrite HB in HB'. injection HB' as <-.
  rewrite HT in HT'. injection HT' as <-.
  rewrite Hrows in Hr. apply in_map_iff in Hr as (k & <- & Hk).
  assert (E : agg_names T (members B (from_clause B T db) k) = []).
  { unfold agg_names. apply flat_map_nil. intros j Hj.
    unfold members in Hj. apply filter_In in Hj as [Hj _].
    apply in_from_clause in Hj as (_ & He & _ & Ht & _).
    unfold left_matches in Ht.
    rewrite filter_none in Ht by (intros t Hin; now apply Hno).
    destruct Ht as [<-|[]]. reflexivity. }
  rewrite E. split; reflexivity.
Qed.

Lemma lower_app (a b : string) : lower (a ++ b) = lower a ++ lower b.
Proof. induction a as [|c a IH]; [reflexivity|]. cbn. now rewrite IH. Qed.

Lemma lower_concat (names : list string) :
  (forall n, In n names -> lower n = n) ->
  lower (String.concat " " names) = String.concat " " names.
Proof.
  induction names as [|n names IH]; intros H; [reflexivity|].
  cbn [String.concat]. destruct names as [|n' names].
  - apply H. now left.
  - rewrite !lower_app, (H n (or_introl eq_refl)), IH; [reflexivity|].
    intros x Hx. apply H. now right.
Qed.

Lemma agg_names_lower (T : Tags) (js : list Joined) (n : string) :
  In n (agg_names T js) -> lower n = n.
Proof.
  unfold agg_names. intros H. apply in_flat_map in H as (j & _ & H).
  destruct (field (t_name T) (jt j)) as [[s| | | | |]|]; cbn [sql_lower] in H;
    try destruct H.
  - subst n. apply lower_idem.
  - destruct H.
Qed.

Lemma sql_lower_lowered (c : cell) : lowered (sql_lower c).
Proof.
  destruct c as [[s| | | | |]|]; cbn [sql_lower lowered]; trivial.
  apply lower_idem.
Qed.

Lemma coalesce_lowered (c : cell) :
  lower (coalesce_text (sql_lower c)) = coalesce_text (sql_lower c).
Proof.
  destruct c as [[s| | | | |]|]; cbn [sql_lower coalesce_text]; trivial.
  apply lower_idem.
Qed.

(** X27.  The text of the view is in lower case: in every row the
    [emails], [title] and [display_name] cells (columns 1, 2 and 3) are a
    lower-case text or NULL, and the [tech_names] and [document] cells
    (columns 7 and 10) are a lower-case text. *)
Theorem view_text_lowered (db : Data) (v : Table) (r : row) (i : nat) :
  create_materialized_view db = Some v ->
  In r (rows v) ->
  In i [1; 2; 3; 7; 10] ->
  lowered (get i r).
Proof.
  unfold create_materialized_view.
  destruct (base_layout db) as [B|]; [|discriminate]. cbn [bind].
  destruct (tags_layout B db) as [T|]; [|discriminate]. cbn [bind].
  intros [= <-] Hr Hi. cbn [rows] in Hr.
  apply in_map_iff in Hr as (k & <- & _).
  pose proof (lower_concat _ (agg_names_lower T (members B (from_clause B T db) k)))
    as Hn.
  unfold select_row, tech_names_text.
  destruct Hi as [<-|[<-|[<-|[<-|[<-|[]]]]]]; cbn [get nth].
  - apply sql_lower_lowered.
  - apply sql_lower_lowered.
  - apply sql_lower_lowered.
  - exact Hn.
  - cbn [lowered]. rewrite !lower_app, !coalesce_lowered, Hn. reflexivity.
Qed.

End ViewMore.

Section ViewMoreExamples.
Import Py Frame Clean Flatten View Notions Shapes Samples Cases.

Lemma view_is_inner_join_witness :
  exists v,
    create_materialized_view cleaned = Some v
    /\ exists ci cp ep,
         col_index "id" contacts3 = Some ci
         /\ col_index "place_id" contacts3 = Some cp
         /\ col_index "place_id" entities2 = Some ep
         /\ (forall r, In r (rows v) ->
               exists c e,
                 In c (rows contacts3) /\ In e (rows entities2)
                 /\ sql_eq (get cp c) (get ep e) = true
                 /\ get 0 r = sql_value (get ci c))
         /\ (forall c e,
               In c (rows contacts3) -> In e (rows entities2) ->
               sql_eq (get cp c) (get ep e) = true ->
               exists r, In r (rows v) /\ get 0 r = sql_value (get ci c)).
Proof.
  eexists. split; [vm_compute; reflexivity|].
  exact (view_is_inner_join cleaned _ eq_refl).
Defined.

Lemma view_rows_bounded_witness :
  exists v, create_materialized_view cleaned = Some v /\ nrows v <= 3.
Proof.
  eexists. split; [vm_compute; reflexivity|].
  exact (view_rows_bounded cleaned _ eq_refl eq_refl eq_refl eq_refl).
Defined.

Lemma view_rows_ignore_tags_witness :
  exists v v',
    create_materialized_view cleaned = Some v
    /\ create_materialized_view no_tags = Some v'
    /\ nrows v' = nrows v.
Proof.
  eexists. eexists. split; [vm_compute; reflexivity|].
  split; [vm_compute; reflexivity|].
  exact (view_rows_ignore_tags cleaned (techstacks no_tags) _ _ eq_refl eq_refl).
Defined.


Lemma view_without_tags_witness :
  exists v,
    create_materialized_view no_tags = Some v
    /\ forall r, In r (rows v) ->
         get 7 r = Scalar (SStr "")
         /\ get 10 r = Scalar (SStr (coalesce_text (get 1 r) ++ " "
                                     ++ coalesce_text (get 2 r) ++ " ")).
Proof.
  eexists. split; [vm_compute; reflexivity|].
  refine (view_without_tags no_tags _ (mkBase 0 2 3 1 0 1 2 3 4 1 0 1 0) (mkTags 0 1)
            eq_refl eq_refl eq_refl _).
  intros e t _ Ht. vm_compute in Ht. destruct Ht.
Defined.

Lemma view_text_lowered_witness :
  exists v,
    create_materialized_view cleaned = Some v
    /\ forall r, In r (rows v) -> lowered (get 10 r).
Proof.
  eexists. split; [vm_compute; reflexivity|].
  intros r Hr.
  refine (view_text_lowered cleaned _ r 10 eq_refl Hr _).
  cbn. tauto.
Defined.

End ViewMoreExamples.

(** ** The random identifiers *)

Section IdFacts.
Import Py Ids.







End IdFacts.

(** ** Loading, cleaning and flattening in a row *)

Section LoaderFacts.
Import Py Frame Clean Flatten Loader.

Variable to_datetime : string -> option Z.
Variable str_of_time : Z -> string.
Variable str_of_list : list scalar -> string.
Variable read_csv : string -> option Table.

Local Abbreviation cleaned := (clean_data to_datetime str_of_time str_of_list).
Local Abbreviation loaded := (load_csv_data read_csv).

(** X29.  When the contacts file or the places file cannot be read,
    [load_csv_data] puts an empty frame in its place, cleaning leaves it
    empty, and [flatten_data] on the cleaned frames returns the empty
    frame, without a column or a row, and does not raise. *)
Theorem missing_source_flattens_empty (d' : Data) :
  cleaned loaded = Some d' ->
  read_csv "contacts.csv" = None \/ read_csv "places.csv" = None ->
  flatten_data d' = Some empty_frame.
Proof.
  intros H Hmiss. apply clean_data_inv in H as (Hc & He & _).
  unfold load_csv_data in Hc, He. cbn [contacts entities] in Hc, He.
  unfold flatten_data. destruct Hmiss as [E|E].
  - unfold load_frame in Hc. rewrite E in Hc. injection Hc as <-. reflexivity.
  - unfold load_frame in He. rewrite E in He. injection He as <-.
    cbn [empty_frame]. now rewrite orb_true_r.
Qed.

End LoaderFacts.

Lemma missing_source_flattens_empty_witness :
  exists d',
    Clean.clean_data Samples.parse_one_date Samples.print_one_date Samples.print_list
      (Loader.load_csv_data Cases.only_contacts) = Some d'
    /\ Flatten.flatten_data d' = Some Frame.empty_frame.
Proof.
  eexists. split; [vm_compute; reflexivity|].
  apply (missing_source_flattens_empty Samples.parse_one_date Samples.print_one_date
           Samples.print_list Cases.only_contacts _ eq_refl).
  right. reflexivity.
Defined.

(** ** The generated customer mappings *)

Section MappingFacts.
Import Py Frame Clean Flatten Notions Ids Mapping.








Section Files.

Variable exists_file : string -> bool.
Variable read_csv : string -> option Table.







End Files.

End MappingFacts.

